(** * prefect.utilities.tasks: annotation scopes, coercion and the task decorator

    A shallow embedding of [src/prefect/utilities/tasks.py]: the context
    managers [group] and [tags], the coercion [as_task] and the curried
    decorator [task], over a small universe of Python values and a state and
    exception monad that threads the ambient [prefect.context]. *)

From stdpp Require Import base option list strings gmap.

Local Open Scope string_scope.
Local Open Scope list_scope.
Set Warnings "-register-all".

(** ** Python values *)

(** A class defined outside the builtins: its name, whether [prefect.core.Task]
    is among its ancestors, and whether its instances define [__call__]. *)
Record pyclass := PyClass {
  cls_name : string;
  cls_is_task : bool;
  cls_callable : bool
}.

(** The fragment of Python objects the module handles.  An instance of a
    user-defined or library class carries the builtin value it extends
    ([Some (VList _)] for a subclass of [list], [None] for a plain object)
    and its attributes. *)
Inductive value : Type :=
| VNone
| VInt (z : Z)
| VStr (s : string)
| VList (xs : list value)
| VTuple (xs : list value)
| VSet (xs : list value)
| VDict (kvs : list (value * value))
| VFunction (name : string) (params : list string)
| VInstance (cls : pyclass) (base : option value) (attrs : list (string * value)).

Abbreviation kwargs := (list (string * value)).

Inductive exn : Type :=
| TypeError (msg : string)
| ValueError (msg : string)
| UserError (msg : string).

(** *** Structural equality of values, decidable *)

#[global] Instance pyclass_eq_dec : EqDecision pyclass.
Proof. solve_decision. Defined.

#[global] Instance exn_eq_dec : EqDecision exn.
Proof. solve_decision. Defined.

Lemma value_eq_dec_aux : ∀ x y : value, {x = y} + {x ≠ y}.
Proof.
  fix IH 1.
  assert (IHl : ∀ l k : list value, {l = k} + {l ≠ k}).
  { fix IHl 1. intros [|a l] [|b k];
      [left; reflexivity | right; discriminate | right; discriminate |].
    destruct (IH a b) as [->|Hab]; [|right; congruence].
    destruct (IHl l k) as [->|Hlk]; [left; reflexivity | right; congruence]. }
  assert (IHp : ∀ l k : list (value * value), {l = k} + {l ≠ k}).
  { fix IHp 1. intros [|[a1 a2] l] [|[b1 b2] k];
      [left; reflexivity | right; discriminate | right; discriminate |].
    destruct (IH a1 b1) as [->|Hab]; [|right; congruence].
    destruct (IH a2 b2) as [->|Hab]; [|right; congruence].
    destruct (IHp l k) as [->|Hlk]; [left; reflexivity | right; congruence]. }
  assert (IHa : ∀ l k : list (string * value), {l = k} + {l ≠ k}).
  { fix IHa 1. intros [|[a1 a2] l] [|[b1 b2] k];
      [left; reflexivity | right; discriminate | right; discriminate |].
    destruct (decide (a1 = b1)) as [->|Hab]; [|right; congruence].
    destruct (IH a2 b2) as [->|Hab]; [|right; congruence].
    destruct (IHa l k) as [->|Hlk]; [left; reflexivity | right; congruence]. }
  intros x y; destruct x, y; try (right; discriminate).
  - left; reflexivity.
  - destruct (decide (z = z0)) as [->|]; [left; reflexivity | right; congruence].
  - destruct (decide (s = s0)) as [->|]; [left; reflexivity | right; congruence].
  - destruct (IHl xs xs0) as [->|]; [left; reflexivity | right; congruence].
  - destruct (IHl xs xs0) as [->|]; [left; reflexivity | right; congruence].
  - destruct (IHl xs xs0) as [->|]; [left; reflexivity | right; congruence].
  - destruct (IHp kvs kvs0) as [->|]; [left; reflexivity | right; congruence].
  - destruct (decide (name = name0)) as [->|]; [|right; congruence].
    destruct (decide (params = params0)) as [->|];
      [left; reflexivity | right; congruence].
  - destruct (decide (cls = cls0)) as [->|]; [|right; congruence].
    destruct (IHa attrs attrs0) as [->|]; [|right; congruence].
    destruct base as [b|], base0 as [b0|]; try (right; congruence).
    + destruct (IH b b0) as [->|]; [left; reflexivity | right; congruence].
    + left; reflexivity.
Defined.

#[global] Instance value_eq_dec : EqDecision value := value_eq_dec_aux.

(** *** Builtin behaviour of values *)

(** The builtin value an object is, or extends: [isinstance] against a
    builtin type, iteration, truth and hashing of a subclass instance follow
    the builtin part. *)
Fixpoint builtin_of (x : value) : value :=
  match x with
  | VInstance _ (Some b) _ => builtin_of b
  | _ => x
  end.

(** [isinstance(x, prefect.core.Task)] *)
Definition isinstance_Task (x : value) : bool :=
  match x with
  | VInstance c _ _ => cls_is_task c
  | _ => false
  end.

(** [isinstance(x, list)], [isinstance(x, tuple)], [isinstance(x, set)],
    [isinstance(x, dict)] *)
Definition isinstance_list (x : value) : bool :=
  match builtin_of x with VList _ => true | _ => false end.

Definition isinstance_tuple (x : value) : bool :=
  match builtin_of x with VTuple _ => true | _ => false end.

Definition isinstance_set (x : value) : bool :=
  match builtin_of x with VSet _ => true | _ => false end.

Definition isinstance_dict (x : value) : bool :=
  match builtin_of x with VDict _ => true | _ => false end.

(** [callable(x)] *)
Definition callable (x : value) : bool :=
  match x with
  | VFunction _ _ => true
  | VInstance c _ _ => cls_callable c
  | _ => false
  end.

(** [bool(x)] *)
Definition truthy (x : value) : bool :=
  match builtin_of x with
  | VNone => false
  | VInt z => negb (Z.eqb z 0)
  | VStr s => negb (String.eqb s "")
  | VList xs | VTuple xs | VSet xs => negb (Nat.eqb (length xs) 0)
  | VDict kvs => negb (Nat.eqb (length kvs) 0)
  | VFunction _ _ => true
  | VInstance _ _ _ => true
  end.

Fixpoint string_chars (s : string) : list value :=
  match s with
  | EmptyString => []
  | String a s' => VStr (String a EmptyString) :: string_chars s'
  end.

(** [iter(x)]: the elements the object yields, [None] when it is not
    iterable. *)
Definition py_iter (x : value) : option (list value) :=
  match builtin_of x with
  | VList xs | VTuple xs | VSet xs => Some xs
  | VDict kvs => Some (kvs.*1)
  | VStr s => Some (string_chars s)
  | _ => None
  end.

(** [hash(x)] succeeds. *)
Fixpoint hashable (x : value) : bool :=
  match x with
  | VNone | VInt _ | VStr _ | VFunction _ _ => true
  | VTuple xs => forallb hashable xs
  | VList _ | VSet _ | VDict _ => false
  | VInstance _ None _ => true
  | VInstance _ (Some b) _ => hashable b
  end.

(** Sets keep their elements in a list without repetition; [set.add]. *)
Definition set_add (xs : list value) (v : value) : list value :=
  if decide (v ∈ xs) then xs else (xs ++ [v]).

(** [set(iterable)] *)
Definition py_set (vs : list value) : list value := foldl set_add [] vs.

(** Keyword dictionaries: [dict(d, **e)], later bindings win. *)
Fixpoint kw_set (k : string) (v : value) (d : kwargs) : kwargs :=
  match d with
  | [] => [(k, v)]
  | (k', v') :: d' => if decide (k = k') then (k, v) :: d' else (k', v') :: kw_set k v d'
  end.

Definition kw_update (d e : kwargs) : kwargs :=
  foldl (λ acc kv, kw_set kv.1 kv.2 acc) d e.

Fixpoint kw_get (k : string) (d : kwargs) : option value :=
  match d with
  | [] => None
  | (k', v) :: d' => if decide (k = k') then Some v else kw_get k d'
  end.

Definition kw_del (k : string) (d : kwargs) : kwargs :=
  filter (λ kv, kv.1 ≠ k) d.

(** ** The ambient context *)

(** Modelled from the spec: [prefect.context], the Context Entity of section 3,
    is not part of this module.  It is a stack of key to value overlays,
    innermost first. *)
Definition Context : Type := list (gmap string value).

(** Modelled from the spec: [prefect.context.get(key, default)] returns the
    value of the innermost overlay that defines [key], then [default]. *)
Fixpoint context_get (key : string) (default : value) (ctx : Context) : value :=
  match ctx with
  | [] => default
  | overlay :: outer =>
      match overlay !! key with
      | Some v => v
      | None => context_get key default outer
      end
  end.

(** Modelled from the spec: entering a scope pushes an overlay, leaving it pops
    the overlay. *)
Definition context_enter (overlay : gmap string value) (ctx : Context) : Context :=
  overlay :: ctx.

Definition context_exit (ctx : Context) : Context := tail ctx.

(** Modelled from the spec: the composite view, every key with the value
    [get] finds for it. *)
Definition composite (ctx : Context) : gmap string value :=
  foldr (λ overlay view, overlay ∪ view) ∅ ctx.

(** ** Computations: ambient context and the three ways a block ends *)

Inductive outcome (A : Type) : Type :=
| Normal (a : A)
| Returned (v : value)
| Raised (e : exn).
Arguments Normal {A} a.
Arguments Returned {A} v.
Arguments Raised {A} e.

Definition M (A : Type) : Type := Context → outcome A * Context.

Definition ret {A} (a : A) : M A := λ ctx, (Normal a, ctx).

Definition bind {A B} (m : M A) (k : A → M B) : M B := λ ctx,
  match m ctx with
  | (Normal a, ctx') => k a ctx'
  | (Returned v, ctx') => (Returned v, ctx')
  | (Raised e, ctx') => (Raised e, ctx')
  end.

Definition raise {A} (e : exn) : M A := λ ctx, (Raised e, ctx).

(** [return v] inside a block *)
Definition return_ {A} (v : value) : M A := λ ctx, (Returned v, ctx).

(** [prefect.context.get(key, default)] as a computation *)
Definition get (key : string) (default : value) : M value := λ ctx,
  (Normal (context_get key default ctx), ctx).

(** [try: m except Exception: handler] *)
Definition try_except {A} (m : M A) (handler : exn → M A) : M A := λ ctx,
  match m ctx with
  | (Raised e, ctx') => handler e ctx'
  | r => r
  end.

#[global] Instance M_ret : MRet M := @ret.
#[global] Instance M_bind : MBind M := λ A B k m, bind m k.

(** Modelled from the spec: [with prefect.context(key=value): block].  The
    overlay is pushed, the block runs, and the overlay is popped however the
    block ended. *)
Definition with_context {A} (overlay : gmap string value) (block : M A) : M A :=
  λ ctx,
    let '(o, ctx') := block (context_enter overlay ctx) in
    (o, context_exit ctx').

(** [a + b] on the builtin types that define it.  Operator overloading by
    user-defined classes ([__add__], [__radd__]) is outside the model: the
    result is meaningful for operands that are values of builtin types or
    extend [str], [int], [list] or [tuple] without overriding [+]. *)
Definition py_add (a b : value) : M value :=
  match builtin_of a, builtin_of b with
  | VStr s, VStr t => mret (VStr (s +:+ t))
  | VInt m, VInt n => mret (VInt (m + n))
  | VList xs, VList ys => mret (VList (xs ++ ys))
  | VTuple xs, VTuple ys => mret (VTuple (xs ++ ys))
  | _, _ => raise (TypeError "unsupported operand type(s) for +")
  end.

(** [s.update(iterable)] on the elements of a set *)
Definition set_update (xs : list value) (iterable : value) : M (list value) :=
  match py_iter iterable with
  | None => raise (TypeError "object is not iterable")
  | Some vs =>
      if forallb hashable vs then mret (foldl set_add xs vs)
      else raise (TypeError "unhashable type")
  end.

(** [f( *x )]: the positional arguments an iterable unpacks to. *)
Definition star (x : value) : M (list value) :=
  match py_iter x with
  | Some vs => mret vs
  | None => raise (TypeError "argument after * must be an iterable")
  end.

(** The key of a keyword argument must be a string. *)
Definition keyword_name (k : value) : option string :=
  match builtin_of k with VStr s => Some s | _ => None end.

(** The keyword bindings the items of a mapping give, when every key is a
    string. *)
Definition keyword_bindings (kvs : list (value * value)) : option kwargs :=
  mapM (λ kv, k ← keyword_name kv.1; Some (k, kv.2)) kvs.

(** [f( **x )]: the keyword arguments a mapping unpacks to. *)
Definition star_star (x : value) : M kwargs :=
  match builtin_of x with
  | VDict kvs =>
      match keyword_bindings kvs with
      | Some kw => mret kw
      | None => raise (TypeError "keywords must be strings")
      end
  | _ => raise (TypeError "argument after ** must be a mapping")
  end.

(** A keyword dictionary as the [dict] object a node stores. *)
Definition kwargs_dict (kw : kwargs) : value :=
  VDict ((λ kv, (VStr kv.1, kv.2)) <$> kw).

(** Attribute access on an instance *)
Definition getattr (x : value) (name : string) : option value :=
  match x with
  | VInstance _ _ attrs => kw_get name attrs
  | _ => None
  end.

Definition class_name (x : value) : option string :=
  match x with
  | VInstance c _ _ => Some (cls_name c)
  | _ => None
  end.

(** ** Sample values and constructor policies, for the concrete runs *)

(** Node constructors that accept every argument. *)
Definition accept_all : Context → string → list value → kwargs → option exn :=
  λ _ _ _ _, None.

(** A binder that rejects keyword names containing a space. *)
Definition has_space (s : string) : bool :=
  existsb (λ c, bool_decide (c = VStr " ")) (string_chars s).

Definition reject_spaces : Context → string → list value → kwargs → option exn :=
  λ _ cls _ kw,
    if existsb (λ kv, has_space kv.1) kw
    then Some (ValueError "invalid keyword name") else None.

(** A [FunctionTask] constructor that refuses a function with the reserved
    parameter name [upstream_tasks]. *)
Definition reject_reserved : Context → string → list value → kwargs → option exn :=
  λ _ cls _ kw,
    match cls, kw_get "fn" kw with
    | "FunctionTask", Some (VFunction _ params) =>
        if bool_decide ("upstream_tasks" ∈ params)
        then Some (ValueError "reserved parameter name") else None
    | _, _ => None
    end.

Definition fn_reserved : value := VFunction "bad" ["x"; "upstream_tasks"].

Definition fn_add : value := VFunction "add" ["x"; "y"].

(** A task that was created earlier, and is callable like every task. *)
Definition existing_node : value :=
  VInstance (PyClass "Custom" true true) None [("group", VNone); ("tags", VSet [])].

(** An instance of [class Registry(dict)] that defines [__call__]. *)
Definition callable_mapping : value :=
  VInstance (PyClass "Registry" false true) (Some (VDict [(VStr "a", VInt 1)])) [].

Definition in_math : Context := [ {["_group" := VStr "math"]} ].
Definition in_tag_a : Context := [ {["_tags" := VSet [VStr "a"]]} ].

(** ** The module *)

Section Tasks.

(** The structural requirements a node constructor enforces on its
    arguments (signature validation of a wrapped function, the names a
    binder accepts, an active flow) belong to the node classes, which are
    not part of this module: [construction_error ctx cls args kw] is the
    error, if any, that building a node of class [cls] from positional
    arguments [args] and keyword arguments [kw] raises under context [ctx]. *)
Variable construction_error : Context → string → list value → kwargs → option exn.

(** Modelled from the spec: the node constructors of [prefect.core] and
    [prefect.tasks.core] (section 4.4).  A node is an instance of a subclass
    of [Task] that records the arguments it was built from and, at creation,
    copies [context.get("_group", None)] and [context.get("_tags", set())]
    onto its [group] and [tags] attributes.  Nodes are callable objects
    (section 4.3, step 6 and section 9). *)
Definition new_node (cls : string) (args : list value) (kw : kwargs) : M value :=
  λ ctx,
    match construction_error ctx cls args kw with
    | Some e => (Raised e, ctx)
    | None =>
        (Normal (VInstance (PyClass cls true true) None
                   [("args", VTuple args);
                    ("kwargs", kwargs_dict kw);
                    ("group", context_get "_group" VNone ctx);
                    ("tags", context_get "_tags" (VSet []) ctx)]),
         ctx)
    end.

(** [prefect.tasks.core.collections.List().bind( *args )] and its siblings *)
Definition List_bind (args : list value) : M value := new_node "List" args [].
Definition Tuple_bind (args : list value) : M value := new_node "Tuple" args [].
Definition Set_bind (args : list value) : M value := new_node "Set" args [].
Definition Dict_bind (kw : kwargs) : M value := new_node "Dict" [] kw.

(** [prefect.tasks.core.function.FunctionTask(fn=fn, **kw)] *)
Definition FunctionTask (fn : value) (kw : kwargs) : M value :=
  new_node "FunctionTask" [] (("fn", fn) :: kw).

(** [prefect.tasks.core.constants.Constant(value=x)] *)
Definition Constant (x : value) : M value :=
  new_node "Constant" [] [("value", x)].

(** *** [group]

    A [@contextmanager] generator is a function of the block that runs at
    its [yield]: the way the block ends (normally, by [return], by raising)
    resurfaces at the [yield], inside whatever [with] encloses it. *)
Definition group {A} (name : string) (append : bool) (block : M A) : M A :=
  name ←
    (if append then
       current_group ← get "_group" (VStr "");
       if truthy current_group then
         prefix ← py_add current_group (VStr "/");
         py_add prefix (VStr name)
       else mret (VStr name)
     else mret (VStr name));
  with_context {["_group" := name]} block.

(** *** [tags] *)
Definition tags {A} (tags : list string) (block : M A) : M A :=
  let tags_set := py_set (VStr <$> tags) in
  current ← get "_tags" (VSet []);
  tags_set ← set_update tags_set current;
  with_context {["_tags" := VSet tags_set]} block.

(** *** [as_task] *)
Definition as_task (x : value) : M value :=
  if isinstance_Task x then mret x
  else if isinstance_list x then args ← star x; List_bind args
  else if isinstance_tuple x then args ← star x; Tuple_bind args
  else if isinstance_set x then args ← star x; Set_bind args
  else if isinstance_dict x then kw ← star_star x; Dict_bind kw
  else if callable x then FunctionTask x []
  else Constant x.

(** *** [task] *)

(** The function under the decorator:
    [def task(fn, **task_init_kwargs): return FunctionTask(fn=fn, **task_init_kwargs)] *)
Definition task_body (fn : value) (task_init_kwargs : kwargs) : M value :=
  FunctionTask fn task_init_kwargs.

(** How a call binds to the signature [(fn, **task_init_kwargs)].  Keywords
    are matched against the parameters before the number of positional
    arguments is checked, so a keyword [fn] beside any positional argument
    is reported first. *)
Inductive binding : Type :=
| Bound (fn : value) (task_init_kwargs : kwargs)
| Missing
| Invalid (e : exn).

Definition bind_signature (args : list value) (kw : kwargs) : binding :=
  match args with
  | [] =>
      match kw_get "fn" kw with
      | Some fn => Bound fn (kw_del "fn" kw)
      | None => Missing
      end
  | fn :: extra =>
      match kw_get "fn" kw with
      | Some _ => Invalid (TypeError "task() got multiple values for argument 'fn'")
      | None =>
          match extra with
          | [] => Bound fn kw
          | _ => Invalid (TypeError "task() takes 1 positional argument")
          end
      end
  end.

(** [toolz.curry]: an object holding the arguments collected so far.  A call
    adds its arguments and calls the function; when the call fails only
    because required arguments are still missing, the result is a new curry
    object holding them all; any other failure propagates. *)
Record curry := Curry {
  curry_args : list value;
  curry_keywords : kwargs
}.

Definition curry_call (c : curry) (args : list value) (kw : kwargs)
    : M (value + curry) :=
  let args' := (curry_args c ++ args) in
  let kw' := kw_update (curry_keywords c) kw in
  match bind_signature args' kw' with
  | Bound fn task_init_kwargs => node ← task_body fn task_init_kwargs; mret (inl node)
  | Missing => mret (inr (Curry args' kw'))
  | Invalid e => raise e
  end.

(** [task = curry(task)] *)
Definition task (args : list value) (kw : kwargs) : M (value + curry) :=
  curry_call (Curry [] []) args kw.

(** ** Specification vocabulary *)

(** A block that leaves the ambient context as it found it, however it
    ends.  Every operation of this module is such a block. *)
Definition preserves_context {A} (m : M A) : Prop :=
  ∀ ctx, (m ctx).2 = ctx.

(** The effective group name as section 4.1 words it: with [append] and a
    non-empty active group the path [current/name], otherwise [name]. *)
Definition effective_group (append : bool) (current name : string) : string :=
  if append then
    if decide (current = "") then name else (current +:+ "/") +:+ name
  else name.

(** The seven coercion categories of section 4.3, in the order the spec
    lists them, each with the test that recognises it. *)
Inductive category : Type :=
| IsNode | IsList | IsTuple | IsSet | IsMapping | IsCallable | IsConstant.

Definition categories : list (category * (value → bool)) :=
  [ (IsNode, isinstance_Task);
    (IsList, isinstance_list);
    (IsTuple, isinstance_tuple);
    (IsSet, isinstance_set);
    (IsMapping, isinstance_dict);
    (IsCallable, callable);
    (IsConstant, λ _, true) ].

(** First match wins. *)
Definition first_match (x : value) : option category :=
  fst <$> head (filter (λ c, c.2 x = true) categories).

(** What each category does with the value. *)
Definition coerce_as (c : category) (x : value) : M value :=
  match c with
  | IsNode => mret x
  | IsList => args ← star x; List_bind args
  | IsTuple => args ← star x; Tuple_bind args
  | IsSet => args ← star x; Set_bind args
  | IsMapping => kw ← star_star x; Dict_bind kw
  | IsCallable => FunctionTask x []
  | IsConstant => Constant x
  end.

(** A value of a builtin type itself, not an instance of a class defined
    elsewhere. *)
Definition is_builtin_value (x : value) : bool :=
  match x with
  | VInstance _ _ _ => false
  | _ => true
  end.

(** Group scopes nested in the order given, each one appending:
    [with group(n1, append=True): with group(n2, append=True): ... block]. *)
Definition nested_groups {A} (names : list string) (block : M A) : M A :=
  foldr (λ name inner, group name true inner) block names.

(** A path extended by names, one after the other. *)
Definition extend_path (current : string) (names : list string) : string :=
  foldl (λ path name,
           if decide (path = "") then name else (path +:+ "/") +:+ name)
        current names.

(** Names joined by ["/"]. *)
Fixpoint join_path (names : list string) : string :=
  match names with
  | [] => ""
  | [name] => name
  | name :: rest => name +:+ "/" +:+ join_path rest
  end.

(** ** Proofs *)

Ltac unfold_m :=
  unfold mbind, M_bind, bind, mret, M_ret, ret, get, raise, return_,
    try_except, with_context, context_enter, context_exit in *.

(** *** Blocks that preserve the context *)

Lemma preserves_ret {A} (a : A) : preserves_context (mret a).
Proof. intros ctx. reflexivity. Qed.

Lemma preserves_raise {A} (e : exn) : preserves_context (@raise A e).
Proof. intros ctx. reflexivity. Qed.

Lemma preserves_return {A} (v : value) : preserves_context (@return_ A v).
Proof. intros ctx. reflexivity. Qed.

Lemma preserves_get key default : preserves_context (get key default).
Proof. intros ctx. reflexivity. Qed.

Lemma preserves_bind {A B} (m : M A) (k : A → M B) :
  preserves_context m → (∀ a, preserves_context (k a)) →
  preserves_context (m ≫= k).
Proof.
  intros Hm Hk ctx. specialize (Hm ctx). unfold_m.
  destruct (m ctx) as [[a|v|e] ctx']; simpl in *; subst; [apply Hk | done | done].
Qed.

Lemma preserves_try_except {A} (m : M A) (handler : exn → M A) :
  preserves_context m → (∀ e, preserves_context (handler e)) →
  preserves_context (try_except m handler).
Proof.
  intros Hm Hh ctx. specialize (Hm ctx). unfold_m.
  destruct (m ctx) as [[a|v|e] ctx']; simpl in *; subst; [done | done | apply Hh].
Qed.

Lemma preserves_with_context {A} overlay (block : M A) :
  preserves_context block → preserves_context (with_context overlay block).
Proof.
  intros Hb ctx. unfold_m. specialize (Hb (overlay :: ctx)).
  destruct (block (overlay :: ctx)) as [o ctx']; simpl in *. by subst.
Qed.

Lemma preserves_py_add a b : preserves_context (py_add a b).
Proof.
  intros ctx. unfold py_add.
  destruct (builtin_of a), (builtin_of b); reflexivity.
Qed.

Lemma preserves_set_update xs it : preserves_context (set_update xs it).
Proof.
  intros ctx. unfold set_update.
  destruct (py_iter it) as [vs|]; [|reflexivity].
  destruct (forallb hashable vs); reflexivity.
Qed.

Lemma preserves_star x : preserves_context (star x).
Proof. intros ctx. unfold star. destruct (py_iter x); reflexivity. Qed.

Lemma preserves_star_star x : preserves_context (star_star x).
Proof.
  intros ctx. unfold star_star.
  destruct (builtin_of x); try reflexivity.
  destruct (keyword_bindings kvs); reflexivity.
Qed.

Lemma preserves_new_node cls args kw : preserves_context (new_node cls args kw).
Proof.
  intros ctx. unfold new_node.
  destruct (construction_error ctx cls args kw); reflexivity.
Qed.

Lemma preserves_if {A} (b : bool) (m1 m2 : M A) :
  preserves_context m1 → preserves_context m2 →
  preserves_context (if b then m1 else m2).
Proof. by destruct b. Qed.

Create HintDb scoped.
#[local] Hint Resolve preserves_ret preserves_raise preserves_return
  preserves_get preserves_bind preserves_try_except preserves_with_context
  preserves_py_add preserves_set_update preserves_star preserves_star_star
  preserves_new_node preserves_if : scoped.

Lemma preserves_group {A} name append (block : M A) :
  preserves_context block → preserves_context (group name append block).
Proof. intros Hb. unfold group. eauto 10 with scoped. Qed.

Lemma preserves_tags {A} ts (block : M A) :
  preserves_context block → preserves_context (tags ts block).
Proof. intros Hb. unfold tags. eauto 10 with scoped. Qed.

Lemma preserves_as_task x : preserves_context (as_task x).
Proof.
  unfold as_task, List_bind, Tuple_bind, Set_bind, Dict_bind, FunctionTask, Constant.
  repeat apply preserves_if; eauto with scoped.
Qed.

Lemma preserves_curry_call c args kw : preserves_context (curry_call c args kw).
Proof.
  unfold curry_call, task_body, FunctionTask.
  destruct (bind_signature _ _); eauto with scoped.
Qed.

Lemma preserves_task args kw : preserves_context (task args kw).
Proof. apply preserves_curry_call. Qed.

(** *** Lookups through an overlay *)

Lemma context_get_enter_eq key default v (ctx : Context) :
  context_get key default (context_enter {[key := v]} ctx) = v.
Proof. simpl. by rewrite lookup_singleton_eq. Qed.

Lemma context_get_enter_ne key key' default v (ctx : Context) :
  key ≠ key' →
  context_get key default (context_enter {[key' := v]} ctx)
  = context_get key default ctx.
Proof. intros Hne. simpl. by rewrite lookup_singleton_ne. Qed.

Lemma context_get_composite key dflt (ctx : Context) :
  context_get key dflt ctx = from_option id dflt (composite ctx !! key).
Proof.
  induction ctx as [|overlay outer IH]; simpl; [by rewrite lookup_empty|].
  rewrite lookup_union. destruct (overlay !! key) as [v|]; simpl.
  - by destruct (composite outer !! key).
  - rewrite IH. by destruct (composite outer !! key).
Qed.

(** *** What a node constructor produces *)

Lemma new_node_ok cls args kw ctx :
  construction_error ctx cls args kw = None →
  ∃ node, new_node cls args kw ctx = (Normal node, ctx)
          ∧ isinstance_Task node = true
          ∧ class_name node = Some cls
          ∧ getattr node "args" = Some (VTuple args)
          ∧ getattr node "kwargs" = Some (kwargs_dict kw)
          ∧ getattr node "group" = Some (context_get "_group" VNone ctx)
          ∧ getattr node "tags" = Some (context_get "_tags" (VSet []) ctx).
Proof.
  intros Hok. unfold new_node. rewrite Hok.
  eexists. split; [reflexivity|]. split_and!; reflexivity.
Qed.

Lemma new_node_raises cls args kw ctx e :
  construction_error ctx cls args kw = Some e →
  new_node cls args kw ctx = (Raised e, ctx).
Proof. intros Herr. unfold new_node. by rewrite Herr. Qed.

Lemma new_node_inv cls args kw ctx o ctx' :
  new_node cls args kw ctx = (o, ctx') →
  ctx' = ctx
  ∧ match o with
    | Normal node =>
        construction_error ctx cls args kw = None
        ∧ isinstance_Task node = true
        ∧ class_name node = Some cls
        ∧ getattr node "group" = Some (context_get "_group" VNone ctx)
    | Returned _ => False
    | Raised e => construction_error ctx cls args kw = Some e
    end.
Proof.
  unfold new_node. destruct (construction_error ctx cls args kw) as [e|];
    intros [= <- <-]; done.
Qed.

(** *** What the scopes push *)

Lemma group_override {A} name (block : M A) ctx :
  group name false block ctx = with_context {["_group" := VStr name]} block ctx.
Proof. reflexivity. Qed.

Lemma group_enters {A} name append current (block : M A) ctx :
  context_get "_group" (VStr "") ctx = VStr current →
  group name append block ctx
  = with_context {["_group" := VStr (effective_group append current name)]} block ctx.
Proof.
  intros Hcur. destruct append; [|reflexivity].
  unfold group, effective_group. unfold_m. rewrite Hcur.
  destruct current as [|a current]; [reflexivity|].
  destruct (decide (String a current = "")) as [|_]; [discriminate|].
  reflexivity.
Qed.

Lemma group_cases {A} name append (block : M A) ctx :
  (∃ e, group name append block ctx = (Raised e, ctx))
  ∨ (∃ v, group name append block ctx = with_context {["_group" := v]} block ctx).
Proof.
  unfold group. destruct append; [|right; eexists; reflexivity].
  unfold_m. destruct (truthy _); [|right; eexists; reflexivity].
  unfold py_add. unfold_m.
  destruct (builtin_of (context_get "_group" (VStr "") ctx));
    simpl; first [left; eexists; reflexivity | right; eexists; reflexivity].
Qed.

Lemma elem_of_set_add xs v w : w ∈ set_add xs v ↔ w ∈ xs ∨ w = v.
Proof.
  unfold set_add. case_decide.
  - split; [by left | intros [?| ->]; done].
  - rewrite elem_of_app, list_elem_of_singleton. done.
Qed.

Lemma NoDup_set_add xs v : NoDup xs → NoDup (set_add xs v).
Proof.
  intros Hxs. unfold set_add. case_decide; [done|].
  apply NoDup_app. split_and!; [done | | apply NoDup_singleton].
  intros w Hw ->%list_elem_of_singleton. done.
Qed.

Lemma elem_of_foldl_set_add vs xs w :
  w ∈ foldl set_add xs vs ↔ w ∈ xs ∨ w ∈ vs.
Proof.
  revert xs. induction vs as [|v vs IH]; intros xs; simpl.
  - rewrite elem_of_nil. tauto.
  - rewrite IH, elem_of_set_add, elem_of_cons. tauto.
Qed.

Lemma NoDup_foldl_set_add vs xs : NoDup xs → NoDup (foldl set_add xs vs).
Proof.
  revert xs. induction vs as [|v vs IH]; intros xs Hxs; simpl; [done|].
  by apply IH, NoDup_set_add.
Qed.

Lemma elem_of_py_set vs w : w ∈ py_set vs ↔ w ∈ vs.
Proof. unfold py_set. rewrite elem_of_foldl_set_add, elem_of_nil. tauto. Qed.

Lemma NoDup_py_set vs : NoDup (py_set vs).
Proof. apply NoDup_foldl_set_add, NoDup_nil_2. Qed.

Lemma tags_enters {A} ts es (block : M A) ctx :
  context_get "_tags" (VSet []) ctx = VSet es →
  forallb hashable es = true →
  tags ts block ctx
  = with_context {["_tags" := VSet (foldl set_add (py_set (VStr <$> ts)) es)]} block ctx.
Proof.
  intros Hes Hh. unfold tags, set_update. unfold_m. rewrite Hes. simpl.
  rewrite Hh. reflexivity.
Qed.

(** *** The claims about the annotation scopes *)

(** C1.  Scope restoration on every exit path.  Whatever block runs inside
    [group(name, append)] or [tags( *ts )], and however it ends (normally,
    by an early [return], or by a raised exception that propagates out),
    the ambient context after the scope is exactly the context before it.
    In particular, when the block inside a group scope raises and the error
    is caught, creating a node afterwards is the same step, with the same
    result, as creating it had the scope never been entered: the node
    carries the group that was active before the scope. *)
Theorem scope_restores_context {A} (block : M A) name append ts e x ctx :
  preserves_context block →
  (group name append block ctx).2 = ctx
  ∧ (tags ts block ctx).2 = ctx
  ∧ (group name append (return_ (A:=A) x) ctx).2 = ctx
  ∧ (group name append (raise (A:=A) e) ctx).2 = ctx
  ∧ try_except (group name append (raise e)) (λ _, Constant x) ctx = Constant x ctx
  ∧ (∀ node ctx',
       try_except (group name append (raise e)) (λ _, Constant x) ctx
       = (Normal node, ctx') →
       ctx' = ctx ∧ getattr node "group" = Some (context_get "_group" VNone ctx)).
Proof.
  intros Hb.
  assert (Hcaught :
    try_except (group name append (raise e)) (λ _, Constant x) ctx = Constant x ctx).
  { unfold try_except.
    destruct (group_cases name append (raise (A:=value) e) ctx)
      as [[e' ->]|[v ->]]; reflexivity. }
  split_and!.
  - by apply preserves_group.
  - by apply preserves_tags.
  - apply preserves_group, preserves_return.
  - apply preserves_group, preserves_raise.
  - exact Hcaught.
  - intros node ctx'. rewrite Hcaught. unfold Constant, new_node.
    destruct (construction_error _ _ _ _); [discriminate|].
    intros [= <- <-]. done.
Qed.

(** C3.  Group append.  Inside [group(n, append=True)] the ambient group is
    [current + "/" + n] when the active group is a non-empty string
    [current], and just [n] when no group is active or the active group is
    the empty string; every node built inside the scope carries that name as
    its [group] attribute. *)
Theorem group_append_effective name current default cls args kw ctx :
  context_get "_group" (VStr "") ctx = VStr current →
  let effective := if decide (current = "") then name else (current +:+ "/") +:+ name in
  let inner := context_enter {["_group" := VStr effective]} ctx in
  group name true (get "_group" default) ctx = (Normal (VStr effective), ctx)
  ∧ (construction_error inner cls args kw = None →
     ∃ node, group name true (new_node cls args kw) ctx = (Normal node, ctx)
             ∧ getattr node "group" = Some (VStr effective)).
Proof.
  intros Hcur effective inner. split.
  - rewrite (group_enters _ _ _ _ _ Hcur). unfold_m. simpl.
    by rewrite lookup_singleton_eq.
  - intros Hok. rewrite (group_enters _ _ _ _ _ Hcur).
    destruct (new_node_ok _ _ _ _ Hok) as (node & Hnode & _ & _ & _ & _ & Hg & _).
    exists node. unfold with_context. simpl effective_group.
    fold effective. fold inner. rewrite Hnode. split; [reflexivity|].
    rewrite Hg. unfold inner. by rewrite context_get_enter_eq.
Qed.

(** C9.  Group override.  Inside [group(n)] (append is false by default)
    the ambient group is exactly [n], whatever group encloses it; nested
    scopes do not compose paths, and every node built inside carries [n]. *)
Theorem group_override_effective outer name default cls args kw ctx :
  let inner := context_enter {["_group" := VStr name]} ctx in
  let nested := context_enter {["_group" := VStr name]}
                  (context_enter {["_group" := VStr outer]} ctx) in
  group name false (get "_group" default) ctx = (Normal (VStr name), ctx)
  ∧ group outer false (group name false (get "_group" default)) ctx
    = (Normal (VStr name), ctx)
  ∧ (construction_error inner cls args kw = None →
     ∃ node, group name false (new_node cls args kw) ctx = (Normal node, ctx)
             ∧ getattr node "group" = Some (VStr name))
  ∧ (construction_error nested cls args kw = None →
     ∃ node, group outer false (group name false (new_node cls args kw)) ctx
             = (Normal node, ctx)
             ∧ getattr node "group" = Some (VStr name)).
Proof.
  intros inner nested. split_and!.
  - rewrite group_override. unfold_m. simpl. by rewrite lookup_singleton_eq.
  - rewrite group_override. unfold with_context. rewrite group_override.
    unfold_m. simpl. by rewrite lookup_singleton_eq.
  - intros Hok. rewrite group_override.
    destruct (new_node_ok _ _ _ _ Hok) as (node & Hnode & _ & _ & _ & _ & Hg & _).
    exists node. unfold with_context. fold inner. rewrite Hnode.
    split; [reflexivity|].
    rewrite Hg. unfold inner. by rewrite context_get_enter_eq.
  - intros Hok. rewrite group_override. unfold with_context.
    rewrite group_override.
    destruct (new_node_ok _ _ _ _ Hok) as (node & Hnode & _ & _ & _ & _ & Hg & _).
    exists node. unfold with_context. fold nested. rewrite Hnode.
    split; [reflexivity|].
    rewrite Hg. unfold nested. by rewrite context_get_enter_eq.
Qed.

(** C4.  Tags accumulate.  Inside [tags(t1, ..., tn)] the ambient tag set
    is the union of the given tags, duplicates collapsed, with the tag set
    [es] active outside (empty when none is): it has no repeated element, it
    contains every enclosing tag, and leaving the scope gives back the
    enclosing tag set. *)
Theorem tags_accumulate {A} (block : M A) ts es dflt ctx :
  context_get "_tags" (VSet []) ctx = VSet es →
  forallb hashable es = true →
  ∃ inner,
    tags ts (get "_tags" dflt) ctx = (Normal (VSet inner), ctx)
    ∧ (∀ v, v ∈ inner ↔ (∃ t, t ∈ ts ∧ v = VStr t) ∨ v ∈ es)
    ∧ NoDup inner
    ∧ es ⊆ inner
    ∧ (preserves_context block →
       context_get "_tags" (VSet []) (tags ts block ctx).2 = VSet es).
Proof.
  intros Hes Hh.
  exists (foldl set_add (py_set (VStr <$> ts)) es).
  assert (Hin : ∀ v, v ∈ foldl set_add (py_set (VStr <$> ts)) es
                     ↔ (∃ t, t ∈ ts ∧ v = VStr t) ∨ v ∈ es).
  { intros v. rewrite elem_of_foldl_set_add, elem_of_py_set, list_elem_of_fmap.
    split; (intros [(t & H1 & H2)|?]; [left; exists t; done | by right]). }
  split_and!.
  - rewrite (tags_enters _ _ _ _ Hes Hh). unfold_m. simpl.
    by rewrite lookup_singleton_eq.
  - exact Hin.
  - apply NoDup_foldl_set_add, NoDup_py_set.
  - intros v Hv. apply Hin. by right.
  - intros Hb. by rewrite (preserves_tags ts block Hb ctx).
Qed.

(** C10.  Frame.  The overlay [group] pushes binds the key ["_group"] and
    nothing else, the overlay [tags] pushes binds ["_tags"] and nothing
    else: inside a group scope every other key, ["_tags"] included, reads as
    it does outside, and inside a tag scope every other key, ["_group"]
    included, reads as it does outside. *)
Theorem scopes_frame {A} (block : M A) key dflt name append ts current es ctx :
  context_get "_group" (VStr "") ctx = VStr current →
  context_get "_tags" (VSet []) ctx = VSet es →
  forallb hashable es = true →
  (∃ v, group name append block ctx = with_context {["_group" := v]} block ctx)
  ∧ (∃ v, tags ts block ctx = with_context {["_tags" := v]} block ctx)
  ∧ (key ≠ "_group" →
     group name append (get key dflt) ctx = (Normal (context_get key dflt ctx), ctx))
  ∧ (key ≠ "_tags" →
     tags ts (get key dflt) ctx = (Normal (context_get key dflt ctx), ctx))
  ∧ group name append (get "_tags" dflt) ctx
    = (Normal (context_get "_tags" dflt ctx), ctx)
  ∧ tags ts (get "_group" dflt) ctx
    = (Normal (context_get "_group" dflt ctx), ctx).
Proof.
  intros Hcur Hes Hh.
  assert (Hg : ∀ k, k ≠ "_group" →
    group name append (get k dflt) ctx = (Normal (context_get k dflt ctx), ctx)).
  { intros k Hk. rewrite (group_enters _ _ _ _ _ Hcur). unfold_m. simpl.
    by rewrite lookup_singleton_ne. }
  assert (Ht : ∀ k, k ≠ "_tags" →
    tags ts (get k dflt) ctx = (Normal (context_get k dflt ctx), ctx)).
  { intros k Hk. rewrite (tags_enters _ _ _ _ Hes Hh). unfold_m. simpl.
    by rewrite lookup_singleton_ne. }
  split_and!.
  - eexists. by apply group_enters.
  - eexists. by apply tags_enters.
  - apply Hg.
  - apply Ht.
  - by apply Hg.
  - by apply Ht.
Qed.

(** *** The claims about [as_task] *)

Lemma as_task_node x : isinstance_Task x = true → as_task x = mret x.
Proof. intros Hx. unfold as_task. by rewrite Hx. Qed.

Lemma as_task_inv x ctx o ctx' :
  as_task x ctx = (o, ctx') →
  ctx' = ctx
  ∧ match o with
    | Normal node => isinstance_Task node = true
    | Returned _ => False
    | Raised e =>
        (∃ cls args kw, construction_error ctx cls args kw = Some e)
        ∨ (isinstance_dict x = true ∧ e = TypeError "keywords must be strings")
    end.
Proof.
  unfold as_task, isinstance_list, isinstance_tuple, isinstance_set,
    isinstance_dict, star, star_star, py_iter,
    List_bind, Tuple_bind, Set_bind, Dict_bind, FunctionTask, Constant.
  destruct (isinstance_Task x) eqn:Hx; [intros [= <- <-]; done|].
  assert (Hnode : ∀ cls args kw,
    new_node cls args kw ctx = (o, ctx') →
    ctx' = ctx
    ∧ match o with
      | Normal node => isinstance_Task node = true
      | Returned _ => False
      | Raised e =>
          (∃ cls args kw, construction_error ctx cls args kw = Some e)
          ∨ (match builtin_of x with VDict _ => true | _ => false end = true
             ∧ e = TypeError "keywords must be strings")
      end).
  { intros cls args kw [-> Ho]%new_node_inv. split; [done|].
    destruct o as [node|v|e]; [tauto | done | left; eauto]. }
  destruct (builtin_of x) eqn:Hb; simpl; unfold_m;
    try (destruct (callable x); apply Hnode); try apply Hnode.
  destruct (keyword_bindings kvs) as [kw|]; [apply Hnode|].
  intros [= <- <-]. split; [done|]. by right.
Qed.

(** C2.  Dispatch order.  [as_task] is defined on every value and does what
    the first matching category of the list node, list, tuple, set, mapping,
    callable, constant prescribes; the last category matches everything, so
    every value reaches a branch.  When [as_task] raises, the error is one a
    node constructor signalled (or, in the mapping branch, a key that cannot
    be a keyword), never an unsupported-type error of its own.  A callable
    that is already a node comes back as that node, and a value that is both
    a mapping and callable becomes a Dict node. *)
Theorem as_task_dispatch x ctx :
  (∃ c, first_match x = Some c ∧ as_task x = coerce_as c x)
  ∧ (∃ o, as_task x ctx = (o, ctx)
          ∧ match o with
            | Normal node => isinstance_Task node = true
            | Returned _ => False
            | Raised e =>
                (∃ cls args kw, construction_error ctx cls args kw = Some e)
                ∨ (isinstance_dict x = true
                   ∧ e = TypeError "keywords must be strings")
            end)
  ∧ (isinstance_Task x = true → callable x = true → as_task x ctx = (Normal x, ctx))
  ∧ (isinstance_Task x = false → isinstance_dict x = true → callable x = true →
     as_task x = coerce_as IsMapping x).
Proof.
  split_and!.
  - unfold first_match, categories, as_task. rewrite !filter_cons. simpl.
    destruct (isinstance_Task x); simpl; [by exists IsNode|].
    destruct (isinstance_list x); simpl; [by exists IsList|].
    destruct (isinstance_tuple x); simpl; [by exists IsTuple|].
    destruct (isinstance_set x); simpl; [by exists IsSet|].
    destruct (isinstance_dict x); simpl; [by exists IsMapping|].
    destruct (callable x); simpl; [by exists IsCallable | by exists IsConstant].
  - destruct (as_task x ctx) as [o ctx'] eqn:Hrun.
    destruct (as_task_inv _ _ _ _ Hrun) as [-> Ho]. by exists o.
  - intros Hx _. by rewrite as_task_node.
  - intros Hx Hd _. unfold as_task, coerce_as. rewrite Hx.
    unfold isinstance_list, isinstance_tuple, isinstance_set, isinstance_dict in *.
    destruct (builtin_of x); done.
Qed.

(** C7.  Identity on nodes, idempotence.  [as_task] gives an existing node
    back as it is, and coercing the result of a coercion changes nothing:
    [as_task(as_task(v))] is [as_task(v)]. *)
Theorem as_task_idempotent x v ctx :
  (isinstance_Task x = true → as_task x ctx = (Normal x, ctx))
  ∧ (node ← as_task v; as_task node) ctx = as_task v ctx.
Proof.
  split.
  - intros Hx. by rewrite as_task_node.
  - unfold_m. destruct (as_task v ctx) as [o ctx'] eqn:Hrun.
    destruct (as_task_inv _ _ _ _ Hrun) as [-> Ho].
    destruct o as [node|r|e]; [|done|done].
    by rewrite as_task_node.
Qed.


(** *** Keyword dictionaries *)

Lemma kw_set_fresh k v (d : kwargs) : k ∉ d.*1 → kw_set k v d = (d ++ [(k, v)]).
Proof.
  induction d as [|[k' v'] d IH]; simpl; [done|].
  rewrite not_elem_of_cons. intros [Hne Hd].
  destruct (decide (k = k')); [done|]. by rewrite IH.
Qed.

Lemma kw_update_fresh (e d : kwargs) :
  NoDup (d ++ e).*1 → kw_update d e = (d ++ e).
Proof.
  unfold kw_update. revert d.
  induction e as [|[k v] e IH]; intros d Hnd; simpl; [by rewrite app_nil_r|].
  assert (Hk : k ∉ d.*1).
  { rewrite fmap_app in Hnd. apply NoDup_app in Hnd as (_ & Hdisj & _).
    intros Hin. apply (Hdisj k Hin). simpl. left. }
  rewrite kw_set_fresh by done.
  rewrite IH; [by rewrite <- app_assoc|].
  by rewrite <- app_assoc.
Qed.

Lemma kw_update_nil_l (e : kwargs) : NoDup e.*1 → kw_update [] e = e.
Proof. intros Hnd. by rewrite kw_update_fresh. Qed.

Lemma kw_update_nil_r (d : kwargs) : kw_update d [] = d.
Proof. reflexivity. Qed.

(** *** The claims about [task] *)

Lemma task_bare fn kw ctx :
  NoDup kw.*1 → kw_get "fn" kw = None →
  task [fn] kw ctx = (node ← FunctionTask fn kw; mret (inl node)) ctx.
Proof.
  intros Hnd Hfn. unfold task, curry_call, bind_signature, task_body. simpl.
  rewrite kw_update_nil_l by done. by rewrite Hfn.
Qed.

Lemma task_configured kw ctx :
  NoDup kw.*1 → kw_get "fn" kw = None →
  task [] kw ctx = (Normal (inr (Curry [] kw)), ctx).
Proof.
  intros Hnd Hfn. unfold task, curry_call, bind_signature. simpl.
  rewrite kw_update_nil_l by done. by rewrite Hfn.
Qed.

Lemma decorator_applied fn kw ctx :
  kw_get "fn" kw = None →
  curry_call (Curry [] kw) [fn] [] ctx
  = (node ← FunctionTask fn kw; mret (inl node)) ctx.
Proof.
  intros Hfn. unfold curry_call, bind_signature, task_body. simpl.
  by rewrite Hfn.
Qed.

Lemma task_keyword_fn fn kw ctx :
  NoDup kw.*1 → kw_get "fn" kw = Some fn →
  task [] kw ctx = (node ← FunctionTask fn (kw_del "fn" kw); mret (inl node)) ctx.
Proof.
  intros Hnd Hfn. unfold task, curry_call, bind_signature, task_body. simpl.
  rewrite kw_update_nil_l by done. by rewrite Hfn.
Qed.

Lemma FunctionTask_ok fn kw ctx :
  construction_error ctx "FunctionTask" [] (("fn", fn) :: kw) = None →
  ∃ node, (node ← FunctionTask fn kw; mret (inl (B:=curry) node)) ctx
          = (Normal (inl node), ctx)
          ∧ class_name node = Some "FunctionTask"
          ∧ getattr node "kwargs" = Some (kwargs_dict (("fn", fn) :: kw)).
Proof.
  intros Hok. unfold FunctionTask. unfold_m.
  destruct (new_node_ok _ _ _ _ Hok) as (node & -> & _ & ? & _ & ? & _).
  by exists node.
Qed.

(** C5.  The two forms of the decorator.  [task(fn)] and [task()(fn)] are
    the same construction, [FunctionTask(fn=fn)] with no option; when it
    succeeds both give a FunctionTask node built from [fn] alone.
    [task(name=n)(fn)] is [FunctionTask(fn=fn, name=n)]: the option reaches
    the constructor, and the node differs from the bare one. *)
Theorem task_dual_form fn n ctx :
  task [fn] [] ctx = (node ← FunctionTask fn []; mret (inl node)) ctx
  ∧ (∃ decorator,
       task [] [] ctx = (Normal (inr decorator), ctx)
       ∧ curry_call decorator [fn] [] ctx = task [fn] [] ctx)
  ∧ (∃ decorator,
       task [] [("name", n)] ctx = (Normal (inr decorator), ctx)
       ∧ curry_call decorator [fn] [] ctx
         = (node ← FunctionTask fn [("name", n)]; mret (inl node)) ctx)
  ∧ (construction_error ctx "FunctionTask" [] [("fn", fn)] = None →
     construction_error ctx "FunctionTask" [] [("fn", fn); ("name", n)] = None →
     ∃ bare configured decorator,
       task [fn] [] ctx = (Normal (inl bare), ctx)
       ∧ task [] [("name", n)] ctx = (Normal (inr decorator), ctx)
       ∧ curry_call decorator [fn] [] ctx = (Normal (inl configured), ctx)
       ∧ class_name bare = Some "FunctionTask"
       ∧ class_name configured = Some "FunctionTask"
       ∧ getattr bare "kwargs" = Some (kwargs_dict [("fn", fn)])
       ∧ getattr configured "kwargs" = Some (kwargs_dict [("fn", fn); ("name", n)])
       ∧ bare ≠ configured).
Proof.
  assert (Hnil : NoDup ([] : kwargs).*1) by apply NoDup_nil_2.
  assert (Hname : NoDup [("name", n)].*1) by apply NoDup_singleton.
  split_and!.
  - by apply task_bare.
  - exists (Curry [] []). split; [by apply task_configured | reflexivity].
  - exists (Curry [] [("name", n)]). split; [by apply task_configured|].
    by apply decorator_applied.
  - intros Hbare Hconf.
    destruct (FunctionTask_ok _ _ _ Hbare) as (bare & Hb & ? & Hkb).
    destruct (FunctionTask_ok _ _ _ Hconf) as (configured & Hc & ? & Hkc).
    exists bare, configured, (Curry [] [("name", n)]).
    split_and!.
    + by rewrite task_bare.
    + by apply task_configured.
    + by rewrite decorator_applied.
    + done.
    + done.
    + done.
    + done.
    + intros ->. rewrite Hkb in Hkc. discriminate.
Qed.

(** C6.  Call shapes.  The curried factory tells the two forms apart at
    the call, with no marker from the caller.  A call whose first, and
    only, positional argument is a callable is the bare form: the
    constructor runs at once and, when it accepts, the result is the
    FunctionTask node wrapping that callable.  A call that carries only
    keyword arguments, the options meant for the constructor, is the
    configured form: the result is a decorator that holds them and, applied
    to the function, runs the constructor on the function with them. *)
Theorem task_detects_call_shape fn options ctx :
  NoDup options.*1 → kw_get "fn" options = None →
  callable fn = true →
  task [fn] options ctx = (node ← FunctionTask fn options; mret (inl node)) ctx
  ∧ (construction_error ctx "FunctionTask" [] (("fn", fn) :: options) = None →
     ∃ node, task [fn] options ctx = (Normal (inl node), ctx)
             ∧ class_name node = Some "FunctionTask"
             ∧ getattr node "kwargs" = Some (kwargs_dict (("fn", fn) :: options)))
  ∧ ∃ decorator,
      task [] options ctx = (Normal (inr decorator), ctx)
      ∧ curry_call decorator [fn] [] ctx
        = (node ← FunctionTask fn options; mret (inl node)) ctx.
Proof.
  intros Hnd Hfn Hcallable. split_and!.
  - by apply task_bare.
  - intros Hok. rewrite task_bare by done. by apply FunctionTask_ok.
  - exists (Curry [] options). split.
    + by apply task_configured.
    + by apply decorator_applied.
Qed.

(** ** Further properties of the scopes *)

Lemma string_app_cons a s t : String a s +:+ t = String a (s +:+ t).
Proof. reflexivity. Qed.

Lemma string_app_assoc s t u : (s +:+ t) +:+ u = s +:+ (t +:+ u).
Proof.
  induction s as [|a s IH]; [reflexivity|].
  by rewrite !string_app_cons, IH.
Qed.

Lemma string_app_nonempty s t : s ≠ "" → s +:+ t ≠ "".
Proof. destruct s; [done|]. rewrite string_app_cons. discriminate. Qed.

Lemma extend_path_join current names :
  current ≠ "" → Forall (λ name, name ≠ "") names →
  extend_path current names
  = match names with [] => current | _ => current +:+ "/" +:+ join_path names end.
Proof.
  intros Hcur Hnames. revert current Hcur.
  induction Hnames as [|name rest Hname Hrest IH]; intros current Hcur;
    [reflexivity|].
  unfold extend_path in *. simpl foldl.
  destruct (decide (current = "")) as [|_]; [done|].
  rewrite IH by by apply string_app_nonempty, string_app_nonempty.
  destruct rest as [|name' rest]; [by rewrite string_app_assoc|].
  change (join_path (name :: name' :: rest))
    with (name +:+ "/" +:+ join_path (name' :: rest)).
  by rewrite !string_app_assoc.
Qed.

(** With [append=True] an active group that is a value of a builtin type
    counts only when it is truthy.  A falsy one ([None], [0], an empty
    string or collection) is ignored and the name is used alone; a truthy
    one that is not a string (a number, a non-empty list, tuple, set or
    dict, a function) makes [current_group + "/"] fail, so [group] raises
    [TypeError] before the block runs and the context is left as it was. *)
Theorem group_append_by_truth_and_type {A} name (block : M A) ctx :
  let current := context_get "_group" (VStr "") ctx in
  is_builtin_value current = true →
  (truthy current = false →
   group name true block ctx = with_context {["_group" := VStr name]} block ctx)
  ∧ (truthy current = true → (∀ s, current ≠ VStr s) →
     group name true block ctx
     = (Raised (TypeError "unsupported operand type(s) for +"), ctx)).
Proof.
  intros current Hbuiltin. split.
  - intros Hfalse. unfold group. unfold_m. fold current. by rewrite Hfalse.
  - intros Htrue Hstr. unfold group. unfold_m. fold current. rewrite Htrue.
    unfold py_add. simpl.
    destruct current eqn:Hb; try reflexivity; [by destruct (Hstr s) | done].
Qed.

(** Appending scopes compose paths: inside [group(n1, append=True)], ...,
    [group(nk, append=True)] nested in that order, the ambient group is the
    active path extended by every name in turn; with no group active and
    no empty name this is the names joined by ["/"]. *)
Theorem nested_groups_compose_path name names current dflt ctx :
  context_get "_group" (VStr "") ctx = VStr current →
  nested_groups (name :: names) (get "_group" dflt) ctx
  = (Normal (VStr (extend_path current (name :: names))), ctx)
  ∧ (current = "" → Forall (λ n, n ≠ "") (name :: names) →
     extend_path current (name :: names) = join_path (name :: names)).
Proof.
  intros Hcur. split.
  - revert name current ctx Hcur.
    induction names as [|next names IH]; intros name current ctx Hcur.
    + unfold nested_groups. simpl foldr.
      rewrite (group_enters _ _ _ _ _ Hcur). unfold_m. simpl.
      by rewrite lookup_singleton_eq.
    + change (nested_groups (name :: next :: names) (get "_group" dflt) ctx)
        with (group name true (nested_groups (next :: names) (get "_group" dflt)) ctx).
      rewrite (group_enters _ _ _ _ _ Hcur). unfold with_context.
      rewrite (IH next (effective_group true current name)
                 (context_enter {["_group" := VStr (effective_group true current name)]} ctx)
                 (context_get_enter_eq _ _ _ _)).
      reflexivity.
  - intros -> Hnames. apply Forall_cons in Hnames as [Hname Hrest].
    unfold extend_path. simpl foldl.
    destruct (decide ("" = "")) as [_|]; [|done].
    fold (extend_path name names). rewrite extend_path_join by done.
    by destruct names.
Qed.

(** The scopes relay how the block ended.  Whatever the block does under
    the pushed overlay (a value, an early [return], an exception) is what
    the [with] statement does; no exception is swallowed or replaced. *)
Theorem scopes_relay_outcome {A} (block : M A) name append ts current es ctx :
  context_get "_group" (VStr "") ctx = VStr current →
  context_get "_tags" (VSet []) ctx = VSet es →
  forallb hashable es = true →
  let in_group :=
    context_enter {["_group" := VStr (effective_group append current name)]} ctx in
  let in_tags :=
    context_enter {["_tags" := VSet (foldl set_add (py_set (VStr <$> ts)) es)]} ctx in
  (group name append block ctx).1 = (block in_group).1
  ∧ (tags ts block ctx).1 = (block in_tags).1
  ∧ (∀ e ctx', block in_group = (Raised e, ctx') →
       group name append block ctx = (Raised e, context_exit ctx'))
  ∧ (∀ e ctx', block in_tags = (Raised e, ctx') →
       tags ts block ctx = (Raised e, context_exit ctx')).
Proof.
  intros Hcur Hes Hh in_group in_tags.
  rewrite (group_enters _ _ _ block _ Hcur), (tags_enters _ _ block _ Hes Hh).
  unfold with_context. fold in_group in_tags.
  split_and!.
  - by destruct (block in_group).
  - by destruct (block in_tags).
  - by intros e ctx' ->.
  - by intros e ctx' ->.
Qed.

Lemma forallb_hashable xs :
  forallb hashable xs = true ↔ ∀ v, v ∈ xs → hashable v = true.
Proof.
  induction xs as [|x xs IH]; simpl.
  - split; [intros _ v Hv; by apply elem_of_nil in Hv | done].
  - rewrite andb_true_iff, IH. split.
    + intros [Hx Hxs] v [->|Hv]%elem_of_cons; [done | by apply Hxs].
    + intros Hall. split; [apply Hall; left | intros v Hv; apply Hall; by right].
Qed.

Lemma hashable_tag_set ts vs :
  forallb hashable vs = true →
  forallb hashable (foldl set_add (py_set (VStr <$> ts)) vs) = true.
Proof.
  rewrite !forallb_hashable. intros Hvs v.
  rewrite elem_of_foldl_set_add, elem_of_py_set, list_elem_of_fmap.
  intros [(t & -> & _)|Hv]; [reflexivity | by apply Hvs].
Qed.

Lemma foldl_set_add_prefix vs xs : ∃ rest, foldl set_add xs vs = xs ++ rest.
Proof.
  revert xs. induction vs as [|v vs IH]; intros xs; simpl.
  - exists []. by rewrite app_nil_r.
  - destruct (IH (set_add xs v)) as [rest ->]. unfold set_add.
    case_decide; [by exists rest|].
    exists (v :: rest). by rewrite <- app_assoc.
Qed.

Lemma foldl_set_add_absorb vs xs :
  (∀ v, v ∈ vs → v ∈ xs) → foldl set_add xs vs = xs.
Proof.
  induction vs as [|v vs IH]; intros Hsub; simpl; [done|].
  unfold set_add at 2. rewrite decide_True by (apply Hsub; left).
  apply IH. intros w Hw. apply Hsub. by right.
Qed.

Lemma foldl_set_add_fresh ys xs :
  NoDup (xs ++ ys) → foldl set_add xs ys = xs ++ ys.
Proof.
  revert xs. induction ys as [|y ys IH]; intros xs Hnd; simpl;
    [by rewrite app_nil_r|].
  assert (Hy : y ∉ xs).
  { apply NoDup_app in Hnd as (_ & Hdisj & _). intros Hin.
    apply (Hdisj y Hin). left. }
  unfold set_add at 2. rewrite decide_False by done.
  rewrite IH; rewrite <- app_assoc; done.
Qed.




(** Nested tag scopes add up, in either order: [tags( *ts1 )] inside
    [tags( *ts2 )], [tags( *ts2 )] inside [tags( *ts1 )] and the single scope
    [tags( *ts1, *ts2 )] make the same tags ambient. *)
Theorem nested_tags_add_up ts1 ts2 es dflt ctx :
  context_get "_tags" (VSet []) ctx = VSet es →
  forallb hashable es = true →
  ∃ a b c,
    tags ts2 (tags ts1 (get "_tags" dflt)) ctx = (Normal (VSet a), ctx)
    ∧ tags ts1 (tags ts2 (get "_tags" dflt)) ctx = (Normal (VSet b), ctx)
    ∧ tags (ts1 ++ ts2) (get "_tags" dflt) ctx = (Normal (VSet c), ctx)
    ∧ ∀ v, (v ∈ a ↔ v ∈ c) ∧ (v ∈ b ↔ v ∈ c)
           ∧ (v ∈ c ↔ (∃ t, (t ∈ ts1 ∨ t ∈ ts2) ∧ v = VStr t) ∨ v ∈ es).
Proof.
  intros Hes Hh.
  assert (Hnest : ∀ outer inner_ts,
    tags outer (tags inner_ts (get "_tags" dflt)) ctx
    = (Normal (VSet (foldl set_add (py_set (VStr <$> inner_ts))
                       (foldl set_add (py_set (VStr <$> outer)) es))), ctx)).
  { intros outer inner_ts. rewrite (tags_enters _ _ _ _ Hes Hh). unfold with_context.
    rewrite (tags_enters inner_ts (foldl set_add (py_set (VStr <$> outer)) es));
      [|apply context_get_enter_eq | by apply hashable_tag_set].
    unfold_m. simpl. by rewrite lookup_singleton_eq. }
  eexists _, _, _. split_and!; [apply Hnest | apply Hnest | |].
  - rewrite (tags_enters _ _ _ _ Hes Hh). unfold_m. simpl.
    by rewrite lookup_singleton_eq.
  - intros v.
    rewrite !elem_of_foldl_set_add, !elem_of_py_set, !list_elem_of_fmap.
    setoid_rewrite elem_of_app. split_and!; firstorder.
Qed.

(** Entering the same tags again changes nothing: inside [tags( *ts )]
    nested in [tags( *ts )] the stored tag set is the very set of the outer
    scope. *)
Theorem tags_idempotent ts es dflt ctx :
  context_get "_tags" (VSet []) ctx = VSet es →
  forallb hashable es = true →
  tags ts (tags ts (get "_tags" dflt)) ctx = tags ts (get "_tags" dflt) ctx.
Proof.
  intros Hes Hh.
  set (own := py_set (VStr <$> ts)).
  rewrite !(tags_enters _ _ _ _ Hes Hh). unfold with_context.
  rewrite (tags_enters ts (foldl set_add own es));
    [|apply context_get_enter_eq | by apply hashable_tag_set].
  unfold_m. simpl. rewrite !lookup_singleton_eq. fold own.
  destruct (foldl_set_add_prefix es own) as [rest Hrest].
  assert (Hnd : NoDup (own ++ rest)).
  { rewrite <- Hrest. apply NoDup_foldl_set_add, NoDup_py_set. }
  rewrite Hrest, foldl_app, (foldl_set_add_absorb own own) by done.
  by rewrite foldl_set_add_fresh.
Qed.

(** [tags()] with no argument keeps the enclosing tag set as it is; with no
    tag set active it still binds ["_tags"], to the empty set, so a lookup
    inside the scope no longer falls back to its default. *)
Theorem tags_without_arguments es dflt ctx :
  context_get "_tags" (VSet []) ctx = VSet es →
  forallb hashable es = true →
  NoDup es →
  tags [] (get "_tags" dflt) ctx = (Normal (VSet es), ctx).
Proof.
  intros Hes Hh Hnd. rewrite (tags_enters _ _ _ _ Hes Hh). unfold_m. simpl.
  rewrite lookup_singleton_eq. unfold py_set. simpl.
  by rewrite (foldl_set_add_fresh es []).
Qed.

(** Group and tag scopes commute: whichever of [group(...)] and
    [tags(...)] is entered first, every key reads the same inside both. *)
Theorem group_tags_commute key dflt name append ts current es ctx :
  context_get "_group" (VStr "") ctx = VStr current →
  context_get "_tags" (VSet []) ctx = VSet es →
  forallb hashable es = true →
  group name append (tags ts (get key dflt)) ctx
  = tags ts (group name append (get key dflt)) ctx.
Proof.
  intros Hcur Hes Hh.
  rewrite (group_enters _ _ _ _ _ Hcur), (tags_enters _ _ _ _ Hes Hh).
  unfold with_context.
  rewrite (tags_enters ts es);
    [|by rewrite context_get_enter_ne | done].
  rewrite (group_enters name append current);
    [|by rewrite context_get_enter_ne].
  unfold_m. simpl.
  destruct (decide (key = "_group")) as [->|Hg];
    [by repeat (rewrite lookup_singleton_eq || rewrite lookup_singleton_ne by done)|].
  destruct (decide (key = "_tags")) as [->|Ht];
    [by repeat (rewrite lookup_singleton_eq || rewrite lookup_singleton_ne by done)|].
  by rewrite !lookup_singleton_ne.
Qed.

(** ** Further properties of [as_task] *)

Lemma new_node_stamps cls args kw ctx o ctx' :
  new_node cls args kw ctx = (o, ctx') →
  ctx' = ctx
  ∧ match o with
    | Normal node =>
        getattr node "group" = Some (context_get "_group" VNone ctx)
        ∧ getattr node "tags" = Some (context_get "_tags" (VSet []) ctx)
    | Returned _ => False
    | Raised e => construction_error ctx cls args kw = Some e
    end.
Proof.
  unfold new_node. destruct (construction_error ctx cls args kw) as [e|];
    intros [= <- <-]; done.
Qed.

Lemma as_task_fresh x ctx o ctx' :
  isinstance_Task x = false →
  as_task x ctx = (o, ctx') →
  ctx' = ctx
  ∧ match o with
    | Normal node =>
        getattr node "group" = Some (context_get "_group" VNone ctx)
        ∧ getattr node "tags" = Some (context_get "_tags" (VSet []) ctx)
    | Returned _ => False
    | Raised e =>
        (∃ cls args kw, construction_error ctx cls args kw = Some e)
        ∨ e = TypeError "keywords must be strings"
    end.
Proof.
  intros Hx.
  unfold as_task, isinstance_list, isinstance_tuple, isinstance_set,
    isinstance_dict, star, star_star, py_iter,
    List_bind, Tuple_bind, Set_bind, Dict_bind, FunctionTask, Constant.
  rewrite Hx.
  assert (Hnode : ∀ cls args kw,
    new_node cls args kw ctx = (o, ctx') →
    ctx' = ctx
    ∧ match o with
      | Normal node =>
          getattr node "group" = Some (context_get "_group" VNone ctx)
          ∧ getattr node "tags" = Some (context_get "_tags" (VSet []) ctx)
      | Returned _ => False
      | Raised e =>
          (∃ cls args kw, construction_error ctx cls args kw = Some e)
          ∨ e = TypeError "keywords must be strings"
      end).
  { intros cls args kw [-> Ho]%new_node_stamps. split; [done|].
    destruct o as [node|v|e]; [done | done | left; eauto]. }
  destruct (builtin_of x) eqn:Hb; simpl; unfold_m;
    try (destruct (callable x); apply Hnode); try apply Hnode.
  destruct (keyword_bindings kvs) as [kw|]; [apply Hnode|].
  intros [= <- <-]. split; [done|]. by right.
Qed.

(** Inside annotation scopes [as_task] stamps the nodes it creates and
    leaves existing nodes alone: a value that is not yet a node becomes a
    node carrying the ambient group and tag set (or the coercion raises a
    constructor's error), while an existing node comes back with the group
    and tags it already had. *)
Theorem as_task_in_scopes x name append ts current es ctx :
  context_get "_group" (VStr "") ctx = VStr current →
  context_get "_tags" (VSet []) ctx = VSet es →
  forallb hashable es = true →
  let ambient_group := VStr (effective_group append current name) in
  let ambient_tags := VSet (foldl set_add (py_set (VStr <$> ts)) es) in
  let inner :=
    context_enter {["_tags" := ambient_tags]}
      (context_enter {["_group" := ambient_group]} ctx) in
  (isinstance_Task x = true →
   group name append (tags ts (as_task x)) ctx = (Normal x, ctx))
  ∧ (isinstance_Task x = false →
     ∃ o, group name append (tags ts (as_task x)) ctx = (o, ctx)
          ∧ match o with
            | Normal node =>
                getattr node "group" = Some ambient_group
                ∧ getattr node "tags" = Some ambient_tags
            | Returned _ => False
            | Raised e =>
                (∃ cls args kw, construction_error inner cls args kw = Some e)
                ∨ e = TypeError "keywords must be strings"
            end).
Proof.
  intros Hcur Hes Hh ambient_group ambient_tags inner.
  assert (Hrun : group name append (tags ts (as_task x)) ctx
                 = ((as_task x inner).1, context_exit (context_exit (as_task x inner).2))).
  { rewrite (group_enters _ _ _ _ _ Hcur). unfold with_context.
    rewrite (tags_enters ts es); [|by rewrite context_get_enter_ne | done].
    unfold with_context. fold ambient_group ambient_tags inner.
    by destruct (as_task x inner). }
  split.
  - intros Hx. rewrite Hrun, (as_task_node _ Hx). reflexivity.
  - intros Hx. rewrite Hrun.
    destruct (as_task x inner) as [o ctx'] eqn:Hinner.
    destruct (as_task_fresh _ _ _ _ Hx Hinner) as [-> Ho].
    exists o. split; [reflexivity|].
    destruct o as [node|v|e]; [|done|done].
    destruct Ho as [Hg Ht]. split.
    + rewrite Hg. unfold inner. rewrite context_get_enter_ne by done.
      by rewrite context_get_enter_eq.
    + rewrite Ht. unfold inner. by rewrite context_get_enter_eq.
Qed.

(** What [as_task] hands to the collection nodes: a list, tuple or set, or
    an instance of a subclass of one, is bound by exactly the elements it
    holds, in their order, none when it is empty.  A string is iterable too
    but is never unpacked: it becomes one constant. *)
Theorem as_task_unpacks_collections x :
  isinstance_Task x = false →
  (∀ xs, builtin_of x = VList xs → as_task x = List_bind xs)
  ∧ (∀ xs, builtin_of x = VTuple xs → as_task x = Tuple_bind xs)
  ∧ (∀ xs, builtin_of x = VSet xs → as_task x = Set_bind xs)
  ∧ (∀ s, builtin_of x = VStr s → callable x = false → as_task x = Constant x).
Proof.
  intros Hx.
  split_and!; intros ? Hb;
    unfold as_task, isinstance_list, isinstance_tuple, isinstance_set,
      isinstance_dict, star, py_iter; rewrite Hx, Hb; try reflexivity.
  by intros ->.
Qed.

(** ** Further properties of [task] *)

Lemma kw_get_None k (d : kwargs) : kw_get k d = None ↔ k ∉ d.*1.
Proof.
  induction d as [|[k' v] d IH]; simpl.
  - split; [intros _ Hin; by apply elem_of_nil in Hin | done].
  - rewrite not_elem_of_cons. destruct (decide (k = k')); [|tauto].
    split; [discriminate | tauto].
Qed.

Lemma kw_get_kw_set k k' v (d : kwargs) :
  kw_get k (kw_set k' v d) = if decide (k = k') then Some v else kw_get k d.
Proof.
  induction d as [|[k'' v''] d IH]; simpl.
  - by destruct (decide (k = k')).
  - destruct (decide (k' = k'')) as [->|Hne]; simpl.
    + by destruct (decide (k = k'')).
    + rewrite IH. destruct (decide (k = k'')) as [->|]; [|done].
      by rewrite decide_False by done.
Qed.

Lemma kw_get_kw_update k (e d : kwargs) :
  NoDup e.*1 →
  kw_get k (kw_update d e)
  = match kw_get k e with Some v => Some v | None => kw_get k d end.
Proof.
  unfold kw_update. revert d.
  induction e as [|[k' v] e IH]; intros d Hnd; simpl; [done|].
  apply NoDup_cons in Hnd as [Hk' Hnd]. simpl in Hk'. rewrite IH by done.
  rewrite kw_get_kw_set. destruct (decide (k = k')) as [->|]; [|done].
  apply kw_get_None in Hk'. by rewrite Hk'.
Qed.

(** The decorated function takes one positional argument.  A call with two
    or more is a [TypeError], and so is a call that passes [fn] by keyword
    beside a positional argument, which is the error reported when both
    happen; no further argument can repair either, so the error is raised
    and the call is not curried. *)
Theorem task_rejects_bad_arity args kw ctx :
  NoDup kw.*1 →
  ((2 ≤ length args)%nat → kw_get "fn" kw = None →
   task args kw ctx
   = (Raised (TypeError "task() takes 1 positional argument"), ctx))
  ∧ (∀ fn, (1 ≤ length args)%nat → kw_get "fn" kw = Some fn →
     task args kw ctx
     = (Raised (TypeError "task() got multiple values for argument 'fn'"), ctx)).
Proof.
  intros Hnd. split.
  - intros Hlen Hfn. unfold task, curry_call, bind_signature. simpl.
    rewrite kw_update_nil_l by done. rewrite Hfn.
    destruct args as [|a [|b args]]; simpl in Hlen; [lia | lia | reflexivity].
  - intros fn Hlen Hfn. unfold task, curry_call, bind_signature. simpl.
    rewrite kw_update_nil_l by done. rewrite Hfn.
    destruct args as [|a args]; simpl in Hlen; [lia | reflexivity].
Qed.

(** Options accumulate through configured calls, and a later call
    overrides an earlier one: [task( **kw1 )( **kw2 )(fn)] and
    [task( **kw1 )(fn, **kw2 )] are [FunctionTask(fn=fn, **kw)] where [kw]
    holds every option of [kw2] and those of [kw1] that [kw2] does not
    name. *)
Theorem curried_options_accumulate fn kw1 kw2 ctx :
  NoDup kw1.*1 → NoDup kw2.*1 →
  kw_get "fn" kw1 = None → kw_get "fn" kw2 = None →
  let kw := kw_update kw1 kw2 in
  ∃ first second,
    task [] kw1 ctx = (Normal (inr first), ctx)
    ∧ curry_call first [] kw2 ctx = (Normal (inr second), ctx)
    ∧ curry_call second [fn] [] ctx
      = (node ← FunctionTask fn kw; mret (inl node)) ctx
    ∧ curry_call first [fn] kw2 ctx
      = (node ← FunctionTask fn kw; mret (inl node)) ctx
    ∧ ∀ k, kw_get k kw
           = match kw_get k kw2 with Some v => Some v | None => kw_get k kw1 end.
Proof.
  intros Hnd1 Hnd2 Hfn1 Hfn2 kw.
  assert (Hfn : kw_get "fn" kw = None).
  { unfold kw. by rewrite kw_get_kw_update, Hfn2. }
  exists (Curry [] kw1), (Curry [] kw). split_and!.
  - by apply task_configured.
  - unfold curry_call, bind_signature. simpl. fold kw. by rewrite Hfn.
  - by apply decorator_applied.
  - unfold curry_call, bind_signature, task_body. simpl. fold kw. by rewrite Hfn.
  - intros k. by apply kw_get_kw_update.
Qed.

(** An error of the node constructor, a [ValueError] for a bad signature
    or a [TypeError] alike, comes out of both forms of the decorator
    unchanged, at the moment the function is supplied. *)
Theorem task_relays_constructor_error fn kw e ctx :
  NoDup kw.*1 → kw_get "fn" kw = None →
  construction_error ctx "FunctionTask" [] (("fn", fn) :: kw) = Some e →
  task [fn] kw ctx = (Raised e, ctx)
  ∧ ∃ decorator,
      task [] kw ctx = (Normal (inr decorator), ctx)
      ∧ curry_call decorator [fn] [] ctx = (Raised e, ctx).
Proof.
  intros Hnd Hfn Herr.
  assert (Hraise : (node ← FunctionTask fn kw; mret (inl (B:=curry) node)) ctx
                   = (Raised e, ctx)).
  { unfold FunctionTask. unfold_m. by rewrite (new_node_raises _ _ _ _ _ Herr). }
  split.
  - by rewrite task_bare.
  - exists (Curry [] kw). split; [by apply task_configured|].
    by rewrite decorator_applied.
Qed.

(** A decorator does not remember the scope it was configured in.
    [task( **kw )] inside a group scope is the decorator it is outside, and
    the node gets the group of the place where the decorator is applied to
    the function. *)
Theorem decorator_stamps_where_applied fn kw name ctx :
  NoDup kw.*1 → kw_get "fn" kw = None →
  let inner := context_enter {["_group" := VStr name]} ctx in
  group name false (task [] kw) ctx = task [] kw ctx
  ∧ (construction_error inner "FunctionTask" [] (("fn", fn) :: kw) = None →
     ∃ decorator node,
       task [] kw ctx = (Normal (inr decorator), ctx)
       ∧ group name false (curry_call decorator [fn] []) ctx = (Normal (inl node), ctx)
       ∧ getattr node "group" = Some (VStr name))
  ∧ (construction_error ctx "FunctionTask" [] (("fn", fn) :: kw) = None →
     ∃ decorator node,
       group name false (task [] kw) ctx = (Normal (inr decorator), ctx)
       ∧ curry_call decorator [fn] [] ctx = (Normal (inl node), ctx)
       ∧ getattr node "group" = Some (context_get "_group" VNone ctx)).
Proof.
  intros Hnd Hfn inner.
  assert (Hconf : group name false (task [] kw) ctx = task [] kw ctx).
  { rewrite group_override. unfold with_context.
    by rewrite !task_configured. }
  split_and!; [exact Hconf | |].
  - intros Hok. exists (Curry [] kw).
    destruct (new_node_ok _ _ _ _ Hok) as (node & Hnode & _ & _ & _ & _ & Hg & _).
    exists node. split_and!.
    + by apply task_configured.
    + rewrite group_override. unfold with_context. fold inner.
      rewrite decorator_applied by done. unfold FunctionTask. unfold_m.
      by rewrite Hnode.
    + rewrite Hg. unfold inner. by rewrite context_get_enter_eq.
  - intros Hok. exists (Curry [] kw).
    destruct (new_node_ok _ _ _ _ Hok) as (node & Hnode & _ & _ & _ & _ & Hg & _).
    exists node. split_and!.
    + rewrite Hconf. by apply task_configured.
    + rewrite decorator_applied by done. unfold FunctionTask. unfold_m.
      by rewrite Hnode.
    + done.
Qed.

End Tasks.

(** ** Concrete runs *)

Example group_math_functions :
  (node ← group "math" false (group "functions" true (Constant accept_all (VInt 1)));
   mret (getattr node "group")) []
  = (Normal (Some (VStr "math/functions")), []).
Proof. vm_compute. reflexivity. Qed.

Example group_append_alone :
  (node ← group "x" true (Constant accept_all (VInt 1));
   mret (getattr node "group")) []
  = (Normal (Some (VStr "x")), []).
Proof. vm_compute. reflexivity. Qed.

Example group_a_then_b :
  (node ← group "a" false (group "b" false (Constant accept_all (VInt 1)));
   mret (getattr node "group")) []
  = (Normal (Some (VStr "b")), []).
Proof. vm_compute. reflexivity. Qed.

Example tags_a_then_b :
  (tags ["a"] (inner ← tags ["b"] (get "_tags" VNone);
               after ← get "_tags" VNone;
               mret (inner, after))) []
  = (Normal (VSet [VStr "b"; VStr "a"], VSet [VStr "a"]), []).
Proof. vm_compute. reflexivity. Qed.

Example as_task_list :
  (node ← as_task accept_all (VList [VInt 1; VStr "x"; existing_node]);
   mret (class_name node, getattr node "args")) []
  = (Normal (Some "List", Some (VTuple [VInt 1; VStr "x"; existing_node])), []).
Proof. vm_compute. reflexivity. Qed.

Example as_task_constant :
  (node ← as_task accept_all (VInt 42);
   mret (class_name node, getattr node "kwargs")) []
  = (Normal (Some "Constant", Some (VDict [(VStr "value", VInt 42)])), []).
Proof. vm_compute. reflexivity. Qed.

Example as_task_lambda :
  (node ← as_task accept_all (VFunction "<lambda>" []);
   mret (class_name node)) []
  = (Normal (Some "FunctionTask"), []).
Proof. vm_compute. reflexivity. Qed.

Example as_task_invalid_keyword :
  as_task reject_spaces (VDict [(VStr "a b", VInt 1)]) []
  = (Raised (ValueError "invalid keyword name"), []).
Proof. vm_compute. reflexivity. Qed.

(** ** Instances of the theorems *)

Lemma scope_restores_context_witness :
  let block : M value :=
    node ← Constant accept_all (VInt 1); raise (UserError "boom") in
  preserves_context block
  ∧ (group "x" false block in_math).2 = in_math
  ∧ (tags ["t"] block in_math).2 = in_math
  ∧ try_except (group "x" false (raise (UserError "boom")))
      (λ _, Constant accept_all (VInt 1)) in_math
    = Constant accept_all (VInt 1) in_math.
Proof.
  intros block.
  assert (Hb : preserves_context block) by (intros ctx; reflexivity).
  destruct (scope_restores_context accept_all block "x" false ["t"]
              (UserError "boom") (VInt 1) in_math Hb)
    as (Hg & Ht & _ & _ & Hc & _).
  split_and!; assumption.
Defined.

Lemma group_append_effective_witness :
  context_get "_group" (VStr "") in_math = VStr "math"
  ∧ group "functions" true (get "_group" VNone) in_math
    = (Normal (VStr "math/functions"), in_math)
  ∧ ∃ node,
      group "functions" true (Constant accept_all (VInt 1)) in_math
      = (Normal node, in_math)
      ∧ getattr node "group" = Some (VStr "math/functions").
Proof.
  assert (Hcur : context_get "_group" (VStr "") in_math = VStr "math")
    by reflexivity.
  destruct (group_append_effective accept_all "functions" "math" VNone
              "Constant" [] [("value", VInt 1)] in_math Hcur) as [Hget Hnode].
  split_and!; [exact Hcur | exact Hget | exact (Hnode eq_refl)].
Defined.

Lemma group_override_effective_witness :
  group "b" false (get "_group" VNone) in_math = (Normal (VStr "b"), in_math)
  ∧ ∃ node,
      group "a" false (group "b" false (Constant accept_all (VInt 1))) in_math
      = (Normal node, in_math)
      ∧ getattr node "group" = Some (VStr "b").
Proof.
  destruct (group_override_effective accept_all "a" "b" VNone
              "Constant" [] [("value", VInt 1)] in_math)
    as (Hget & _ & _ & Hnested).
  split; [exact Hget | exact (Hnested eq_refl)].
Defined.

Lemma tags_accumulate_witness :
  context_get "_tags" (VSet []) in_tag_a = VSet [VStr "a"]
  ∧ forallb hashable [VStr "a"] = true
  ∧ ∃ inner,
      tags ["b"; "a"; "b"] (get "_tags" VNone) in_tag_a
      = (Normal (VSet inner), in_tag_a)
      ∧ (∀ v, v ∈ inner
              ↔ (∃ t, t ∈ ["b"; "a"; "b"] ∧ v = VStr t) ∨ v ∈ [VStr "a"])
      ∧ NoDup inner
      ∧ context_get "_tags" (VSet [])
          (tags ["b"; "a"; "b"] (get "_group" VNone) in_tag_a).2
        = VSet [VStr "a"].
Proof.
  assert (Hes : context_get "_tags" (VSet []) in_tag_a = VSet [VStr "a"])
    by reflexivity.
  assert (Hh : forallb hashable [VStr "a"] = true) by reflexivity.
  destruct (tags_accumulate (get "_group" VNone) ["b"; "a"; "b"] [VStr "a"]
              VNone in_tag_a Hes Hh)
    as (inner & Hrun & Hin & Hnd & _ & Hout).
  split_and!; [exact Hes | exact Hh |].
  exists inner. split_and!; [exact Hrun | exact Hin | exact Hnd |].
  apply Hout. intros ctx. reflexivity.
Defined.

Lemma scopes_frame_witness :
  context_get "_group" (VStr "") in_tag_a = VStr ""
  ∧ context_get "_tags" (VSet []) in_tag_a = VSet [VStr "a"]
  ∧ forallb hashable [VStr "a"] = true
  ∧ group "g" true (get "_tags" VNone) in_tag_a
    = (Normal (VSet [VStr "a"]), in_tag_a)
  ∧ tags ["t"] (get "_group" VNone) in_tag_a = (Normal VNone, in_tag_a).
Proof.
  assert (Hcur : context_get "_group" (VStr "") in_tag_a = VStr "")
    by reflexivity.
  assert (Hes : context_get "_tags" (VSet []) in_tag_a = VSet [VStr "a"])
    by reflexivity.
  assert (Hh : forallb hashable [VStr "a"] = true) by reflexivity.
  destruct (scopes_frame (get "_tags" VNone) "_tags" VNone "g" true ["t"]
              "" [VStr "a"] in_tag_a Hcur Hes Hh)
    as (_ & _ & Hg & _ & _ & Ht).
  split_and!; [exact Hcur | exact Hes | exact Hh | | exact Ht].
  apply Hg. discriminate.
Defined.

Lemma as_task_dispatch_witness :
  isinstance_Task existing_node = true
  ∧ callable existing_node = true
  ∧ as_task accept_all existing_node [] = (Normal existing_node, [])
  ∧ isinstance_Task callable_mapping = false
  ∧ isinstance_dict callable_mapping = true
  ∧ callable callable_mapping = true
  ∧ as_task accept_all callable_mapping
    = coerce_as accept_all IsMapping callable_mapping.
Proof.
  destruct (as_task_dispatch accept_all existing_node []) as (_ & _ & Hnode & _).
  destruct (as_task_dispatch accept_all callable_mapping []) as (_ & _ & _ & Hmap).
  split_and!;
    [ reflexivity | reflexivity | exact (Hnode eq_refl eq_refl)
    | reflexivity | reflexivity | reflexivity
    | exact (Hmap eq_refl eq_refl eq_refl) ].
Defined.

Lemma as_task_idempotent_witness :
  isinstance_Task existing_node = true
  ∧ as_task accept_all existing_node [] = (Normal existing_node, [])
  ∧ (node ← as_task accept_all (VInt 42); as_task accept_all node) []
    = as_task accept_all (VInt 42) [].
Proof.
  destruct (as_task_idempotent accept_all existing_node (VInt 42) [])
    as [Hnode Hidem].
  split_and!; [reflexivity | exact (Hnode eq_refl) | exact Hidem].
Defined.


Lemma task_dual_form_witness :
  accept_all [] "FunctionTask" [] [("fn", fn_add)] = None
  ∧ ∃ bare configured decorator,
      task accept_all [fn_add] [] [] = (Normal (inl bare), [])
      ∧ task accept_all [] [("name", VStr "n")] [] = (Normal (inr decorator), [])
      ∧ curry_call accept_all decorator [fn_add] [] [] = (Normal (inl configured), [])
      ∧ getattr configured "kwargs"
        = Some (VDict [(VStr "fn", fn_add); (VStr "name", VStr "n")])
      ∧ bare ≠ configured.
Proof.
  destruct (task_dual_form accept_all fn_add (VStr "n") []) as (_ & _ & _ & H).
  destruct (H eq_refl eq_refl)
    as (bare & configured & decorator & H1 & H2 & H3 & _ & _ & _ & H4 & H5).
  split; [reflexivity|]. exists bare, configured, decorator.
  split_and!; assumption.
Defined.

Lemma task_detects_call_shape_witness :
  NoDup [("name", VStr "n")].*1
  ∧ kw_get "fn" [("name", VStr "n")] = None
  ∧ callable fn_add = true
  ∧ (∃ node, task accept_all [fn_add] [("name", VStr "n")] [] = (Normal (inl node), [])
             ∧ class_name node = Some "FunctionTask")
  ∧ ∃ decorator,
      task accept_all [] [("name", VStr "n")] [] = (Normal (inr decorator), [])
      ∧ curry_call accept_all decorator [fn_add] [] []
        = (node ← FunctionTask accept_all fn_add [("name", VStr "n")];
           mret (inl node)) [].
Proof.
  assert (Hnd : NoDup [("name", VStr "n")].*1) by apply NoDup_singleton.
  destruct (task_detects_call_shape accept_all fn_add [("name", VStr "n")] []
              Hnd eq_refl eq_refl) as (_ & Hbare & Hconf).
  destruct (Hbare eq_refl) as (node & Hrun & Hcls & _).
  split_and!; [exact Hnd | reflexivity | reflexivity | | exact Hconf].
  exists node. split; assumption.
Defined.

(** ** Instances of the further properties *)

Lemma group_append_by_truth_and_type_witness :
  is_builtin_value (context_get "_group" (VStr "") [ {["_group" := VNone]} ]) = true
  ∧ truthy (context_get "_group" (VStr "") [ {["_group" := VNone]} ]) = false
  ∧ group "x" true (get "_group" VNone) [ {["_group" := VNone]} ]
    = (Normal (VStr "x"), [ {["_group" := VNone]} ])
  ∧ is_builtin_value (context_get "_group" (VStr "") [ {["_group" := VInt 5]} ]) = true
  ∧ truthy (context_get "_group" (VStr "") [ {["_group" := VInt 5]} ]) = true
  ∧ group "x" true (get "_group" VNone) [ {["_group" := VInt 5]} ]
    = (Raised (TypeError "unsupported operand type(s) for +"),
       [ {["_group" := VInt 5]} ]).
Proof.
  assert (Hnone :
    is_builtin_value (context_get "_group" (VStr "") [ {["_group" := VNone]} ]) = true)
    by (vm_compute; reflexivity).
  assert (Hint :
    is_builtin_value (context_get "_group" (VStr "") [ {["_group" := VInt 5]} ]) = true)
    by (vm_compute; reflexivity).
  destruct (group_append_by_truth_and_type "x" (get "_group" VNone)
              [ {["_group" := VNone]} ] Hnone) as [Hfalsy _].
  destruct (group_append_by_truth_and_type "x" (get "_group" VNone)
              [ {["_group" := VInt 5]} ] Hint) as [_ Htruthy].
  split_and!; [exact Hnone | reflexivity | | exact Hint | reflexivity |].
  - rewrite (Hfalsy eq_refl). reflexivity.
  - apply Htruthy; [reflexivity | intros s; discriminate].
Defined.

Lemma nested_groups_compose_path_witness :
  context_get "_group" (VStr "") [] = VStr ""
  ∧ Forall (λ n, n ≠ "") ["a"; "b"; "c"]
  ∧ nested_groups ["a"; "b"; "c"] (get "_group" VNone) []
    = (Normal (VStr (extend_path "" ["a"; "b"; "c"])), [])
  ∧ extend_path "" ["a"; "b"; "c"] = "a/b/c".
Proof.
  assert (Hnames : Forall (λ n, n ≠ "") ["a"; "b"; "c"])
    by (repeat constructor; discriminate).
  destruct (nested_groups_compose_path "a" ["b"; "c"] "" VNone [] eq_refl)
    as [Hrun Hjoin].
  split_and!; [reflexivity | exact Hnames | exact Hrun |].
  rewrite (Hjoin eq_refl Hnames). reflexivity.
Defined.

Lemma scopes_relay_outcome_witness :
  context_get "_group" (VStr "") in_math = VStr "math"
  ∧ context_get "_tags" (VSet []) in_math = VSet []
  ∧ forallb hashable [] = true
  ∧ group "x" true (raise (A:=value) (UserError "boom")) in_math
    = (Raised (UserError "boom"), in_math)
  ∧ tags ["t"] (raise (A:=value) (UserError "boom")) in_math
    = (Raised (UserError "boom"), in_math).
Proof.
  destruct (scopes_relay_outcome (raise (A:=value) (UserError "boom"))
              "x" true ["t"] "math" [] in_math eq_refl eq_refl eq_refl)
    as (_ & _ & Hg & Ht).
  split_and!; [reflexivity | reflexivity | reflexivity | |].
  - exact (Hg _ _ eq_refl).
  - exact (Ht _ _ eq_refl).
Defined.



Lemma nested_tags_add_up_witness :
  context_get "_tags" (VSet []) in_tag_a = VSet [VStr "a"]
  ∧ forallb hashable [VStr "a"] = true
  ∧ ∃ a b c,
      tags ["y"] (tags ["x"] (get "_tags" VNone)) in_tag_a = (Normal (VSet a), in_tag_a)
      ∧ tags ["x"] (tags ["y"] (get "_tags" VNone)) in_tag_a = (Normal (VSet b), in_tag_a)
      ∧ tags ["x"; "y"] (get "_tags" VNone) in_tag_a = (Normal (VSet c), in_tag_a)
      ∧ ∀ v, (v ∈ a ↔ v ∈ c) ∧ (v ∈ b ↔ v ∈ c).
Proof.
  destruct (nested_tags_add_up ["x"] ["y"] [VStr "a"] VNone in_tag_a
              eq_refl eq_refl) as (a & b & c & Ha & Hb & Hc & Hsame).
  split_and!; [reflexivity | reflexivity |].
  exists a, b, c. split_and!; [exact Ha | exact Hb | exact Hc |].
  intros v. destruct (Hsame v) as (? & ? & _). by split.
Defined.

Lemma tags_idempotent_witness :
  context_get "_tags" (VSet []) in_tag_a = VSet [VStr "a"]
  ∧ forallb hashable [VStr "a"] = true
  ∧ tags ["x"; "a"] (tags ["x"; "a"] (get "_tags" VNone)) in_tag_a
    = tags ["x"; "a"] (get "_tags" VNone) in_tag_a.
Proof.
  split_and!; [reflexivity | reflexivity |].
  exact (tags_idempotent ["x"; "a"] [VStr "a"] VNone in_tag_a eq_refl eq_refl).
Defined.

Lemma tags_without_arguments_witness :
  context_get "_tags" (VSet []) in_tag_a = VSet [VStr "a"]
  ∧ forallb hashable [VStr "a"] = true
  ∧ NoDup [VStr "a"]
  ∧ tags [] (get "_tags" VNone) in_tag_a = (Normal (VSet [VStr "a"]), in_tag_a)
  ∧ tags [] (get "_tags" VNone) [] = (Normal (VSet []), []).
Proof.
  assert (Hnd : NoDup [VStr "a"]) by apply NoDup_singleton.
  split_and!; [reflexivity | reflexivity | exact Hnd | |].
  - exact (tags_without_arguments [VStr "a"] VNone in_tag_a eq_refl eq_refl Hnd).
  - exact (tags_without_arguments [] VNone [] eq_refl eq_refl NoDup_nil_2).
Defined.

Lemma group_tags_commute_witness :
  context_get "_group" (VStr "") in_math = VStr "math"
  ∧ context_get "_tags" (VSet []) in_math = VSet []
  ∧ forallb hashable [] = true
  ∧ group "f" true (tags ["t"] (get "_group" VNone)) in_math
    = tags ["t"] (group "f" true (get "_group" VNone)) in_math.
Proof.
  split_and!; [reflexivity | reflexivity | reflexivity |].
  exact (group_tags_commute "_group" VNone "f" true ["t"] "math" [] in_math
           eq_refl eq_refl eq_refl).
Defined.

Lemma as_task_in_scopes_witness :
  isinstance_Task existing_node = true
  ∧ group "g" false (tags ["t"] (as_task accept_all existing_node)) []
    = (Normal existing_node, [])
  ∧ isinstance_Task (VInt 1) = false
  ∧ ∃ o, group "g" false (tags ["t"] (as_task accept_all (VInt 1))) [] = (o, [])
         ∧ match o with
           | Normal node =>
               getattr node "group" = Some (VStr "g")
               ∧ getattr node "tags" = Some (VSet [VStr "t"])
           | Returned _ => False
           | Raised e => e = TypeError "keywords must be strings"
           end.
Proof.
  destruct (as_task_in_scopes accept_all existing_node "g" false ["t"] "" [] []
              eq_refl eq_refl eq_refl) as [Hnode _].
  destruct (as_task_in_scopes accept_all (VInt 1) "g" false ["t"] "" [] []
              eq_refl eq_refl eq_refl) as [_ Hfresh].
  destruct (Hfresh eq_refl) as (o & Hrun & Ho).
  split_and!; [reflexivity | exact (Hnode eq_refl) | reflexivity |].
  exists o. split; [exact Hrun|].
  destruct o as [node|v|e]; [exact Ho | exact Ho |].
  destruct Ho as [(cls & args & kw & Herr)|He]; [discriminate Herr | exact He].
Defined.

Lemma as_task_unpacks_collections_witness :
  isinstance_Task (VList [VInt 1; VStr "x"]) = false
  ∧ as_task accept_all (VList [VInt 1; VStr "x"])
    = List_bind accept_all [VInt 1; VStr "x"]
  ∧ isinstance_Task (VStr "ab") = false
  ∧ callable (VStr "ab") = false
  ∧ as_task accept_all (VStr "ab") = Constant accept_all (VStr "ab").
Proof.
  destruct (as_task_unpacks_collections accept_all (VList [VInt 1; VStr "x"])
              eq_refl) as (Hlist & _).
  destruct (as_task_unpacks_collections accept_all (VStr "ab") eq_refl)
    as (_ & _ & _ & Hstr).
  split_and!;
    [ reflexivity | exact (Hlist _ eq_refl) | reflexivity | reflexivity
    | exact (Hstr _ eq_refl eq_refl) ].
Defined.

Lemma task_rejects_bad_arity_witness :
  NoDup [("name", VStr "n")].*1
  ∧ (2 ≤ length [fn_add; fn_add])%nat
  ∧ kw_get "fn" [("name", VStr "n")] = None
  ∧ task accept_all [fn_add; fn_add] [("name", VStr "n")] []
    = (Raised (TypeError "task() takes 1 positional argument"), [])
  ∧ NoDup [("fn", fn_add)].*1
  ∧ kw_get "fn" [("fn", fn_add)] = Some fn_add
  ∧ task accept_all [fn_add] [("fn", fn_add)] []
    = (Raised (TypeError "task() got multiple values for argument 'fn'"), [])
  ∧ task accept_all [fn_add; fn_add] [("fn", fn_add)] []
    = (Raised (TypeError "task() got multiple values for argument 'fn'"), []).
Proof.
  assert (Hname : NoDup [("name", VStr "n")].*1) by apply NoDup_singleton.
  assert (Hfn : NoDup [("fn", fn_add)].*1) by apply NoDup_singleton.
  assert (Htwo : (2 ≤ length [fn_add; fn_add])%nat) by (simpl; lia).
  destruct (task_rejects_bad_arity accept_all [fn_add; fn_add]
              [("name", VStr "n")] [] Hname) as [Hmany _].
  destruct (task_rejects_bad_arity accept_all [fn_add]
              [("fn", fn_add)] [] Hfn) as [_ Hdup1].
  destruct (task_rejects_bad_arity accept_all [fn_add; fn_add]
              [("fn", fn_add)] [] Hfn) as [_ Hdup2].
  split_and!;
    [ exact Hname | exact Htwo | reflexivity | exact (Hmany Htwo eq_refl)
    | exact Hfn | reflexivity | | ].
  - apply (Hdup1 fn_add); [simpl; lia | reflexivity].
  - apply (Hdup2 fn_add); [simpl; lia | reflexivity].
Defined.

Lemma curried_options_accumulate_witness :
  let kw1 := [("name", VStr "a"); ("retries", VInt 1)] in
  let kw2 := [("name", VStr "b")] in
  NoDup kw1.*1 ∧ NoDup kw2.*1
  ∧ kw_get "fn" kw1 = None ∧ kw_get "fn" kw2 = None
  ∧ ∃ first second,
      task accept_all [] kw1 [] = (Normal (inr first), [])
      ∧ curry_call accept_all first [] kw2 [] = (Normal (inr second), [])
      ∧ curry_call accept_all second [fn_add] [] []
        = (node ← FunctionTask accept_all fn_add
                    [("name", VStr "b"); ("retries", VInt 1)];
           mret (inl node)) [].
Proof.
  intros kw1 kw2.
  assert (Hnd1 : NoDup kw1.*1).
  { apply NoDup_cons. split; [|apply NoDup_singleton].
    intros Hin%list_elem_of_singleton. discriminate Hin. }
  assert (Hnd2 : NoDup kw2.*1) by apply NoDup_singleton.
  destruct (curried_options_accumulate accept_all fn_add kw1 kw2 []
              Hnd1 Hnd2 eq_refl eq_refl)
    as (first & second & H1 & H2 & H3 & _).
  split_and!; [exact Hnd1 | exact Hnd2 | reflexivity | reflexivity |].
  exists first, second. split_and!; [exact H1 | exact H2 | exact H3].
Defined.

Lemma task_relays_constructor_error_witness :
  NoDup ([] : kwargs).*1
  ∧ kw_get "fn" [] = None
  ∧ reject_reserved [] "FunctionTask" [] [("fn", fn_reserved)]
    = Some (ValueError "reserved parameter name")
  ∧ task reject_reserved [fn_reserved] [] []
    = (Raised (ValueError "reserved parameter name"), [])
  ∧ ∃ decorator,
      task reject_reserved [] [] [] = (Normal (inr decorator), [])
      ∧ curry_call reject_reserved decorator [fn_reserved] [] []
        = (Raised (ValueError "reserved parameter name"), []).
Proof.
  destruct (task_relays_constructor_error reject_reserved fn_reserved []
              (ValueError "reserved parameter name") []
              NoDup_nil_2 eq_refl eq_refl) as [Hbare Hdec].
  split_and!; [apply NoDup_nil_2 | reflexivity | reflexivity | exact Hbare | exact Hdec].
Defined.

Lemma decorator_stamps_where_applied_witness :
  NoDup [("name", VStr "n")].*1
  ∧ kw_get "fn" [("name", VStr "n")] = None
  ∧ group "g" false (task accept_all [] [("name", VStr "n")]) in_math
    = task accept_all [] [("name", VStr "n")] in_math
  ∧ (∃ decorator node,
       task accept_all [] [("name", VStr "n")] in_math = (Normal (inr decorator), in_math)
       ∧ group "g" false (curry_call accept_all decorator [fn_add] []) in_math
         = (Normal (inl node), in_math)
       ∧ getattr node "group" = Some (VStr "g"))
  ∧ (∃ decorator node,
       group "g" false (task accept_all [] [("name", VStr "n")]) in_math
       = (Normal (inr decorator), in_math)
       ∧ curry_call accept_all decorator [fn_add] [] in_math
         = (Normal (inl node), in_math)
       ∧ getattr node "group" = Some (VStr "math")).
Proof.
  assert (Hnd : NoDup [("name", VStr "n")].*1) by apply NoDup_singleton.
  destruct (decorator_stamps_where_applied accept_all fn_add [("name", VStr "n")]
              "g" in_math Hnd eq_refl) as (Hsame & Hinside & Houtside).
  split_and!;
    [ exact Hnd | reflexivity | exact Hsame | exact (Hinside eq_refl)
    | exact (Houtside eq_refl) ].
Defined.
